(** * merge_endsongs: reconciliation of endsong and StreamingHistory records

    A shallow embedding of [src/merge_endsongs.py].  The script keeps three
    SQLite tables: [history] (StreamingHistory entries), [endsong] (endsong
    entries) and [endsong_modified] (the repaired copies).  Tables are lists
    of rows in rowid order, SQL statements are list operations, Python
    exceptions are an error result, and what the script reads from its
    environment (the iteration order of Python sets, the operator's answers
    to [input], the browser search) is collected in the class [Env]. *)

From Stdlib Require Import List String Ascii ZArith Lia Bool Arith.
From Stdlib Require Import Permutation Sorted.
Import ListNotations.

Local Open Scope string_scope.
Local Open Scope list_scope.

(** ** Python strings *)

Module PyStr.

(** [s[:n]] *)
Fixpoint take (n : nat) (s : string) : string :=
  match n, s with
  | S n', String c s' => String c (take n' s')
  | _, _ => EmptyString
  end.

(** [s[n:]] *)
Fixpoint drop (n : nat) (s : string) : string :=
  match n, s with
  | S n', String _ s' => drop n' s'
  | _, _ => s
  end.

(** [s.replace(a, b, 1)] for one-character [a] and [b] *)
Fixpoint replace_first (a b : ascii) (s : string) : string :=
  match s with
  | EmptyString => EmptyString
  | String c s' => if Ascii.eqb c a then String b s' else String c (replace_first a b s')
  end.

(** [s.replace(a, b)] for one-character [a] and [b] *)
Fixpoint replace_all (a b : ascii) (s : string) : string :=
  match s with
  | EmptyString => EmptyString
  | String c s' => String (if Ascii.eqb c a then b else c) (replace_all a b s')
  end.

(** [s.split(c)[0]] for a one-character separator *)
Fixpoint before (c : ascii) (s : string) : string :=
  match s with
  | EmptyString => EmptyString
  | String x s' => if Ascii.eqb x c then EmptyString else String x (before c s')
  end.

(** [c in s] for a one-character [c] *)
Fixpoint has_char (c : ascii) (s : string) : bool :=
  match s with
  | EmptyString => false
  | String x s' => Ascii.eqb x c || has_char c s'
  end.

Definition is_digit (c : ascii) : bool :=
  ((48 <=? nat_of_ascii c) && (nat_of_ascii c <=? 57))%nat.

(** What [int] strips around the literal: tab, line feed, vertical tab, form
    feed, carriage return and the blank.  The four separators 28..31 are
    white space for [str.isspace] but not for [int]. *)
Definition is_space (c : ascii) : bool :=
  let n := nat_of_ascii c in
  (((9 <=? n) && (n <=? 13)) || (n =? 32))%nat.

Fixpoint lstrip (s : string) : string :=
  match s with
  | String c s' => if is_space c then lstrip s' else s
  | EmptyString => EmptyString
  end.

Fixpoint all_space (s : string) : bool :=
  match s with
  | EmptyString => true
  | String c s' => is_space c && all_space s'
  end.

(** The digits of a decimal literal, read left to right.  [acc] is the value
    so far; [after_digit] tells whether the previous character was a digit (an
    underscore may only stand between two digits).  Trailing white space ends
    the literal. *)
Fixpoint digits (acc : Z) (after_digit : bool) (s : string) : option Z :=
  match s with
  | EmptyString => if after_digit then Some acc else None
  | String c s' =>
      if is_digit c then
        digits (10 * acc + Z.of_nat (nat_of_ascii c - 48)) true s'
      else if Ascii.eqb c "_" then
        if after_digit then
          match s' with
          | String d _ => if is_digit d then digits acc false s' else None
          | EmptyString => None
          end
        else None
      else if after_digit && all_space s then Some acc
      else None
  end.

(** The number of decimal digits of a literal. *)
Fixpoint count_digits (s : string) : nat :=
  match s with
  | EmptyString => 0
  | String c s' => (if is_digit c then 1 else 0) + count_digits s'
  end.

(** [sys.get_int_max_str_digits()] as the interpreter starts. *)
Definition max_str_digits : nat := 4300.

(** [int(x)] on the ASCII fragment of Python's grammar for base 10: optional
    white space, an optional sign, decimal digits with single underscores
    between them, optional white space.  A literal of more than 4300 digits
    is refused.  [None] stands for [ValueError]. *)
Definition parse_int (x : string) : option Z :=
  if (max_str_digits <? count_digits x)%nat then None
  else
    match lstrip x with
    | String "-" s => option_map Z.opp (digits 0 false s)
    | String "+" s => digits 0 false s
    | s => digits 0 false s
    end.

(** [l[j]] for a Python list: negative indices count from the end, [None]
    stands for [IndexError]. *)
Definition py_index {A : Type} (l : list A) (j : Z) : option A :=
  let n := Z.of_nat (List.length l) in
  if (0 <=? j)%Z then nth_error l (Z.to_nat j)
  else if (0 <=? n + j)%Z then nth_error l (Z.to_nat (n + j))
  else None.

End PyStr.

(** ** SQLite operators *)

Module Sql.

(** SQLite folds only the 26 ASCII upper-case letters when it compares with
    LIKE. *)
Definition fold_case (c : ascii) : ascii :=
  let n := nat_of_ascii c in
  if ((65 <=? n) && (n <=? 90))%nat then ascii_of_nat (n + 32) else c.

Definition eqb_nocase (c d : ascii) : bool :=
  Ascii.eqb (fold_case c) (fold_case d).

(** [s LIKE pat] with the default settings: [%] matches any run of
    characters, [_] exactly one, every other character itself up to ASCII
    case; there is no escape character. *)
Fixpoint like (pat : string) : string -> bool :=
  match pat with
  | EmptyString => fun s => match s with EmptyString => true | _ => false end
  | String p pat' =>
      if Ascii.eqb p "%" then
        fix any (s : string) : bool :=
          like pat' s || match s with
                         | EmptyString => false
                         | String _ s' => any s'
                         end
      else if Ascii.eqb p "_" then
        fun s => match s with
                 | EmptyString => false
                 | String _ s' => like pat' s'
                 end
      else
        fun s => match s with
                 | EmptyString => false
                 | String c s' => eqb_nocase p c && like pat' s'
                 end
  end.

(** Equality of nullable TEXT values as Python sees them ([None] equals
    [None]); used for DISTINCT, where SQLite also takes two NULLs as equal. *)
Definition eqb_null (a b : option string) : bool :=
  match a, b with
  | Some x, Some y => String.eqb x y
  | None, None => true
  | _, _ => false
  end.

(** [col = ?] in a WHERE clause: never true when either side is NULL. *)
Definition sql_eqb (a b : option string) : bool :=
  match a, b with
  | Some x, Some y => String.eqb x y
  | _, _ => false
  end.

End Sql.

Import PyStr Sql.

(** ** Exceptions *)

Inductive exn : Type :=
| ValueError      (* [int(x)] on something that is no integer literal *)
| IndexError      (* a list index out of range *)
| KeyError        (* [del d[k]] for an absent key *)
| TypeError       (* unpacking [None] *)
| OperationalError (* SQLite refuses the text of a statement *)
| WebDriverError  (* anything raised while driving the browser *).

Inductive result (A : Type) : Type :=
| Ok (a : A)
| Raise (e : exn).

Arguments Ok {A} a.
Arguments Raise {A} e.

Definition bind {A B : Type} (c : result A) (k : A -> result B) : result B :=
  match c with
  | Ok a => k a
  | Raise e => Raise e
  end.

Notation "x <- c ;; k" := (bind c (fun x => k))
  (at level 61, c at next level, right associativity).

(** A [for] loop whose body may raise. *)
Fixpoint for_each {S B : Type} (body : S -> B -> result S) (l : list B) (s : S) : result S :=
  match l with
  | [] => Ok s
  | b :: l' => s' <- body s b ;; for_each body l' s'
  end.

(** ** Tables *)

(** The columns of [endsong] that the script carries along without reading
    them. *)
Record aux_columns : Type := mkAux {
  username : option string;
  conn_country : option string;
  ip_addr_decrypted : option string;
  user_agent_decrypted : option string;
  episode_name : option string;
  episode_show_name : option string;
  spotify_episode_uri : option string;
  reason_start : option string;
  reason_end : option string;
  shuffle : option Z;
  skipped : option Z;
  offline : option Z;
  incognito_mode : option Z;
  source : option string
}.

(** A row of [endsong] and of [endsong_modified].  [e_id] is the column [id]
    ([row[-1]]), [ts] is [row[0]] and [ms_played] is [row[3]]. *)
Record endsong_row : Type := mkEndsong {
  ts : string;
  platform : string;
  ms_played : Z;
  master_metadata_track_name : option string;
  master_metadata_album_artist_name : option string;
  master_metadata_album_album_name : option string;
  spotify_track_uri : option string;
  offline_timestamp : Z;
  aux : aux_columns;
  e_id : Z
}.

(** A row of [history]; [h_id] is the column [id]. *)
Record history_row : Type := mkHistory {
  endTime : string;
  artistName : string;
  trackName : string;
  msPlayed : Z;
  h_source : string;
  h_id : Z
}.

(** The answer of the browser search of lines 232-282 for one
    [(track, artist)] pair. *)
Inductive search_result : Type :=
| Found (found_album : string) (copied_link : string)  (* [matches] is true: album and copied link *)
| NotFound                                             (* the operator answered n/N *)
| TimedOut                                             (* [WebDriverWait] gave up: [continue] *)
| Crashed.                                             (* any other exception *)

Definition pair_dec (x y : string * string) : {x = y} + {x <> y}.
Proof. decide equality; apply string_dec. Defined.

Definition cluster_dec : forall x y : list Z, {x = y} + {x <> y} :=
  list_eq_dec Z.eq_dec.

(** What a run takes from outside the three tables.  A Python set is kept as
    the sequence of its [add] calls; [set_order] gives the order in which
    iteration yields its elements, about which Python promises nothing but
    that each element comes once.  [input] answers the prompt of line 201
    from what was printed before it (the timestamp and the options);
    [search] stands for the browser. *)
Class Env : Type := {
  set_order : forall A : Type, (forall x y : A, {x = y} + {x <> y}) -> list A -> list A;
  set_order_NoDup : forall A dec l, NoDup (set_order A dec l);
  set_order_In : forall A dec l x, In x (set_order A dec l) <-> In x l;
  input : string -> list (string * string) -> string;
  search : option string * option string -> search_result
}.

Definition has_id (p : Z) (r : endsong_row) : bool := Z.eqb (e_id r) p.

(** [SELECT COUNT(id) FROM endsong_modified WHERE id = ?] *)
Definition count_id (p : Z) (m : list endsong_row) : nat :=
  List.length (filter (has_id p) m).

Definition set_names (track artist : string) (r : endsong_row) : endsong_row :=
  mkEndsong (ts r) (platform r) (ms_played r) (Some track) (Some artist)
    (master_metadata_album_album_name r) (spotify_track_uri r)
    (offline_timestamp r) (aux r) (e_id r).

Definition set_track_data (album uri : option string) (r : endsong_row) : endsong_row :=
  mkEndsong (ts r) (platform r) (ms_played r) (master_metadata_track_name r)
    (master_metadata_album_artist_name r) album uri
    (offline_timestamp r) (aux r) (e_id r).

Definition set_uri (uri : string) (r : endsong_row) : endsong_row :=
  set_track_data (master_metadata_album_album_name r) (Some uri) r.

(** [UPDATE endsong_modified SET ... WHERE cond] *)
Definition update_where (cond : endsong_row -> bool) (f : endsong_row -> endsong_row)
    (m : list endsong_row) : list endsong_row :=
  map (fun r => if cond r then f r else r) m.

(** The reserved pair of line 225 and line 300. *)
Definition unknown_track : string := "Unknown Track".
Definition unknown_artist : string := "Unknown Artist".

Definition is_unknown (r : endsong_row) : bool :=
  sql_eqb (master_metadata_track_name r) (Some unknown_track)
  && sql_eqb (master_metadata_album_artist_name r) (Some unknown_artist).

(** [match_ids.sort()] *)
Fixpoint insert_id (x : Z) (l : list Z) : list Z :=
  match l with
  | [] => [x]
  | y :: l' => if (x <=? y)%Z then x :: l else y :: insert_id x l'
  end.

Definition sort_ids (l : list Z) : list Z := fold_right insert_id [] l.

(** [ORDER BY offline_timestamp]: rows with equal keys stay in rowid order. *)
Fixpoint insert_by_offline (r : endsong_row) (l : list endsong_row) : list endsong_row :=
  match l with
  | [] => [r]
  | x :: l' =>
      if (offline_timestamp r <=? offline_timestamp x)%Z then r :: l
      else x :: insert_by_offline r l'
  end.

Definition order_by_offline (l : list endsong_row) : list endsong_row :=
  fold_right insert_by_offline [] l.

(** A Python [dict]: keys in the order of their first insertion. *)
Section Dict.
Context {K V : Type} (eqb : K -> K -> bool).

Fixpoint dict_mem (k : K) (d : list (K * V)) : bool :=
  match d with
  | [] => false
  | (k', _) :: d' => eqb k' k || dict_mem k d'
  end.

(** [d[k] = v] *)
Fixpoint dict_set (k : K) (v : V) (d : list (K * V)) : list (K * V) :=
  match d with
  | [] => [(k, v)]
  | (k', v') :: d' => if eqb k' k then (k', v) :: d' else (k', v') :: dict_set k v d'
  end.

(** [del d[k]] *)
Definition dict_del (k : K) (d : list (K * V)) : result (list (K * V)) :=
  if dict_mem k d then Ok (filter (fun kv => negb (eqb (fst kv) k)) d)
  else Raise KeyError.
End Dict.

Definition key : Type := option string * option string.

Definition key_eqb (a b : key) : bool :=
  eqb_null (fst a) (fst b) && eqb_null (snd a) (snd b).

Definition unknown_key : key := (Some unknown_track, Some unknown_artist).

(** ** The script *)

(** The variables of the [with db:] block of lines 139-328 that the three
    matching loops share.  The four sets are kept as the sequences of their
    [add] calls; [updated] is the counter [i]. *)
Record state : Type := mkState {
  endsong_modified : list endsong_row;
  multiple : list (list Z);
  none : list Z;
  missing : list Z;
  unsure : list Z;
  updated : nat
}.

(** What a run leaves behind: the table [endsong_modified] that is written to
    the output file and saved with the database, the counter and the three
    reports. *)
Record outcome : Type := mkOutcome {
  out_modified : list endsong_row;
  out_updated : nat;
  out_missing : list Z;
  out_unsure : list Z;
  out_skipped : list Z
}.

Definition is_ios (r : endsong_row) : bool := String.eqb (platform r) "ios".

Definition needs_track_data (r : endsong_row) : bool :=
  match master_metadata_album_album_name r, spotify_track_uri r with
  | Some _, Some _ => false
  | _, _ => true
  end.

Definition names_of (r : endsong_row) : key :=
  (master_metadata_track_name r, master_metadata_album_artist_name r).

Definition has_names (k : key) (r : endsong_row) : bool :=
  sql_eqb (master_metadata_track_name r) (fst k)
  && sql_eqb (master_metadata_album_artist_name r) (snd k).

(** [uri.split("?")[0][31:]]: 31 is the length of
    [https://open.spotify.com/track/]. *)
Definition strip_link (uri : string) : string := drop 31 (before "?" uri).

Definition spotify_track (s : string) : string := ("spotify:track:" ++ s)%string.

(** SELECT DISTINCT over the two selected columns: of the rows with an equal
    (album, uri) pair the first one scanned is kept. *)
Fixpoint distinct_track_data (seen : list key) (l : list endsong_row) : list endsong_row :=
  match l with
  | [] => []
  | r :: l' =>
      let d := (master_metadata_album_album_name r, spotify_track_uri r) in
      if existsb (key_eqb d) seen then distinct_track_data seen l'
      else r :: distinct_track_data (d :: seen) l'
  end.

(** ORDER BY ts DESC LIMIT 1: the greatest [ts], the first one scanned among
    equals. *)
Fixpoint latest (best : endsong_row) (l : list endsong_row) : endsong_row :=
  match l with
  | [] => best
  | r :: l' => latest (if String.ltb (ts best) (ts r) then r else best) l'
  end.

(** Reading the tables.  A SELECT without ORDER BY scans a table in rowid
    order, which is the order of the list; for [history] and [endsong] the
    rowid is the column [id].  The loops of lines 218, 289 and 295 iterate
    over a SELECT on [endsong_modified] while their body updates the row
    that is being visited ([WHERE id = ?]); the rows to visit are taken
    from the table as it is when the loop starts. *)

Section Pipeline.

Context {env : Env}.
Variable history : list history_row.
Variable endsong : list endsong_row.

(** *** The merge protocol (lines 152-156, 180-184, 209-211) *)

(** [INSERT INTO endsong_modified SELECT * FROM endsong WHERE id = ?]
    followed by the UPDATE of the two names and [i += 1]. *)
Definition insert_and_update (p : Z) (track artist : string)
    (m : list endsong_row) : list endsong_row :=
  update_where (has_id p) (set_names track artist) (m ++ filter (has_id p) endsong).

Definition copy_row (p : Z) (track artist : string) (st : state) : state :=
  mkState (insert_and_update p track artist (endsong_modified st))
    (multiple st) (none st) (missing st) (unsure st) (S (updated st)).

Definition copy_if_absent (p : Z) (track artist : string) (st : state) : state :=
  if Nat.eqb (count_id p (endsong_modified st)) 0 then copy_row p track artist st
  else st.

(** *** Initial pass (lines 145-166) *)

(** [row[0][:16].replace("T", " ", 1)] *)
Definition minute_of (t : string) : string := replace_first "T" " " (take 16 t).

(** [SELECT * FROM history WHERE endTime = ? AND msPlayed = ?] *)
Definition exact_matches (row : endsong_row) : list history_row :=
  filter (fun h => String.eqb (endTime h) (minute_of (ts row))
                   && Z.eqb (msPlayed h) (ms_played row)) history.

Definition initial_pass_row (st : state) (row : endsong_row) : state :=
  let matches := exact_matches row in
  match matches with
  | [h] => copy_if_absent (e_id row) (trackName h) (artistName h) st
  | _ :: _ :: _ =>
      mkState (endsong_modified st)
        (multiple st ++ [sort_ids (map h_id matches)])
        (none st) (missing st) (unsure st) (updated st)
  | [] =>
      mkState (endsong_modified st) (multiple st)
        (none st ++ [e_id row]) (missing st) (unsure st) (updated st)
  end.

Definition initial_pass (st : state) : state :=
  fold_left initial_pass_row (filter is_ios endsong) st.

(** *** Entries with multiple matches (lines 168-184) *)

(** [SELECT * FROM history WHERE id IN (entry)] *)
Definition cluster_history (entry : list Z) : list history_row :=
  filter (fun h => existsb (Z.eqb (h_id h)) entry) history.

(** Line 174 does not bind the pattern: it writes it into the text of the
    query, between single quotes.  A pattern without a single quote gives
    the query of [cluster_endsong].  A single quote in the pattern ends the
    string literal early, and what follows it is read as SQL: SQLite
    refuses the text with OperationalError, unless what follows happens to
    be SQL itself, a case that the model does not follow and that every
    statement about this loop excludes by [quote_free]. *)
Definition quote_free (s : string) : bool := negb (has_char "'" s).

(** [history[0][0].replace(" ", "T") + "%"] *)
Definition ts_like (h0 : history_row) : string :=
  (replace_all " " "T" (endTime h0) ++ "%")%string.

(** [SELECT id FROM endsong WHERE platform = 'ios' AND ms_played = ... AND
    ts LIKE ... ORDER BY offline_timestamp] *)
Definition cluster_endsong (h0 : history_row) : list endsong_row :=
  order_by_offline
    (filter (fun r => is_ios r && Z.eqb (ms_played r) (msPlayed h0)
                      && like (ts_like h0) (ts r)) endsong).

Definition pair_up (st : state) (he : history_row * endsong_row) : state :=
  copy_if_absent (e_id (snd he)) (trackName (fst he)) (artistName (fst he)) st.

Definition fix_multiple_entry (st : state) (entry : list Z) : result state :=
  match cluster_history entry with
  | [] => Raise IndexError
  | h0 :: _ =>
      if quote_free (endTime h0) then
        Ok (fold_left pair_up (combine (cluster_history entry) (cluster_endsong h0)) st)
      else Raise OperationalError
  end.

Definition fix_multiple (st : state) : result state :=
  for_each fix_multiple_entry (set_order _ cluster_dec (multiple st)) st.

(** *** Entries with no matches (lines 186-213) *)

(** [SELECT artistName, trackName FROM history WHERE msPlayed = ?] *)
Definition duration_matches (ms : Z) : list (string * string) :=
  map (fun h => (artistName h, trackName h))
    (filter (fun h => Z.eqb (msPlayed h) ms) history).

Definition add_missing (entry : Z) (st : state) : state :=
  mkState (endsong_modified st) (multiple st) (none st)
    (missing st ++ [entry]) (unsure st) (updated st).

Definition add_unsure (entry : Z) (st : state) : state :=
  mkState (endsong_modified st) (multiple st) (none st)
    (missing st) (unsure st ++ [entry]) (updated st).

Definition fix_none_entry (st : state) (entry : Z) : result state :=
  if Nat.eqb (count_id entry (endsong_modified st)) 0 then
    match filter (has_id entry) endsong with
    | [] => Raise TypeError
    | row :: _ =>
        let matches := duration_matches (ms_played row) in
        match matches with
        | [] => Ok (add_missing entry st)
        | first :: _ =>
            let options := set_order _ pair_dec matches in
            if Nat.ltb 1 (List.length options) then
              let x := input (ts row) options in
              if String.eqb x "U" || String.eqb x "u" then Ok (add_unsure entry st)
              else
                match parse_int x with
                | None => Raise ValueError
                | Some j =>
                    match py_index options j with
                    | None => Raise IndexError
                    | Some choice => Ok (copy_row entry (snd choice) (fst choice) st)
                    end
                end
            else Ok (copy_row entry (snd first) (fst first) st)
        end
    end
  else Ok st.

Definition fix_none (st : state) : result state :=
  for_each fix_none_entry (set_order _ Z.eq_dec (none st)) st.

(** The three matching loops in sequence. *)
Definition resolve (m : list endsong_row) : result state :=
  st <- fix_multiple (initial_pass (mkState m [] [] [] [] 0)) ;;
  fix_none st.

(** *** Track data (lines 215-225) *)

(** [SELECT DISTINCT master_metadata_album_album_name, spotify_track_uri
    FROM endsong WHERE master_metadata_track_name = ? AND
    master_metadata_album_artist_name = ? ORDER BY ts DESC LIMIT 1] *)
Definition track_data (k : key) : list key :=
  match distinct_track_data [] (filter (has_names k) endsong) with
  | [] => []
  | r :: l =>
      let b := latest r l in
      [(master_metadata_album_album_name b, spotify_track_uri b)]
  end.

Definition add_track_data_row (acc : list endsong_row * list (key * Z))
    (sel : key * Z) : list endsong_row * list (key * Z) :=
  match track_data (fst sel) with
  | [] => (fst acc, dict_set key_eqb (fst sel) (snd sel) (snd acc))
  | data :: _ =>
      (update_where (has_id (snd sel)) (set_track_data (fst data) (snd data)) (fst acc),
       snd acc)
  end.

Definition add_track_data (m : list endsong_row) : list endsong_row * list (key * Z) :=
  fold_left add_track_data_row
    (map (fun r => (names_of r, e_id r)) (filter needs_track_data m)) (m, []).

(** *** Manual entry (lines 226-284) *)

Definition manual_entry_row (acc : list endsong_row * list (Z * Z))
    (kv : key * Z) : result (list endsong_row * list (Z * Z)) :=
  match search (fst kv) with
  | TimedOut => Ok acc
  | Crashed => Raise WebDriverError
  | NotFound => Ok (fst acc, dict_set Z.eqb (snd kv) (snd kv) (snd acc))
  | Found found_album link =>
      Ok (update_where (has_names (fst kv))
            (set_track_data (Some found_album) (Some (strip_link link))) (fst acc),
          snd acc)
  end.

Definition manual_entry (m : list endsong_row) (no_extra : list (key * Z))
    : result (list endsong_row * list (Z * Z)) :=
  for_each manual_entry_row no_extra (m, []).

(** *** Spotify URIs (lines 286-297) *)

Definition select_uris (cond : string -> bool) (m : list endsong_row) : list (Z * string) :=
  flat_map (fun r => match spotify_track_uri r with
                     | Some u => if cond u then [(e_id r, u)] else []
                     | None => []
                     end) m.

Definition fix_uri (fixed : string -> string) (m : list endsong_row)
    (sel : Z * string) : list endsong_row :=
  update_where (has_id (fst sel)) (set_uri (fixed (snd sel))) m.

Definition fix_uris_1 (m : list endsong_row) : list endsong_row :=
  fold_left (fix_uri (fun uri => spotify_track (strip_link uri)))
    (select_uris (like "https%") m) m.

Definition fix_uris_2 (m : list endsong_row) : list endsong_row :=
  fold_left (fix_uri spotify_track)
    (select_uris (fun u => negb (like "spotify%" u)) m) m.

(** *** Unknown tracks (lines 299-300) *)

Definition delete_unknown (m : list endsong_row) : list endsong_row :=
  filter (fun r => negb (is_unknown r)) m.

(** Lines 215-328. *)
Definition finish (st : state) : result outcome :=
  let '(m, no_extra) := add_track_data (endsong_modified st) in
  no_extra' <- dict_del key_eqb unknown_key no_extra ;;
  ms <- manual_entry m no_extra' ;;
  Ok (mkOutcome
        (delete_unknown (fix_uris_2 (fix_uris_1 (fst ms))))
        (updated st)
        (set_order _ Z.eq_dec (missing st))
        (set_order _ Z.eq_dec (unsure st))
        (map fst (snd ms))).

(** One execution of the script on a database whose table
    [endsong_modified] holds [m]. *)
Definition run (m : list endsong_row) : result outcome :=
  st <- resolve m ;; finish st.

End Pipeline.

(** ** Reading the files (lines 119-132) *)

(** What [json.load] returns and what [sqlite3] binds to a placeholder.  A
    [float] is kept as its 64 bits. *)
Local Unset Elimination Schemes.

Inductive value : Type :=
| VNone
| VBool (b : bool)
| VInt (n : Z)
| VFloat (bits : Z)
| VStr (s : string)
| VList (l : list value)
| VDict (d : list (string * value)).

Local Set Elimination Schemes.

(** A JSON object as Python holds it: a [dict] with its keys in the order of
    the file. *)
Definition pyobj : Type := list (string * value).

(** [d[k]], which is what [execute] binds to the placeholder [:k]. *)
Fixpoint lookup (k : string) (d : pyobj) : option value :=
  match d with
  | [] => None
  | (k', v) :: d' => if String.eqb k' k then Some v else lookup k d'
  end.

(** A file that [glob] found: its name and the list that [json.load] makes
    of its contents. *)
Record json_file : Type := mkFile {
  file_name : string;
  file_objects : list pyobj
}.

(** The columns of the two tables (lines 80-117), in the order of CREATE
    TABLE. *)
Definition history_columns : list string :=
  ["endTime"; "artistName"; "trackName"; "msPlayed"; "source"; "id"].

Definition endsong_columns : list string :=
  ["ts"; "username"; "platform"; "ms_played"; "conn_country"; "ip_addr_decrypted";
   "user_agent_decrypted"; "master_metadata_track_name";
   "master_metadata_album_artist_name"; "master_metadata_album_album_name";
   "spotify_track_uri"; "episode_name"; "episode_show_name"; "spotify_episode_uri";
   "reason_start"; "reason_end"; "shuffle"; "skipped"; "offline"; "offline_timestamp";
   "incognito_mode"; "source"; "id"].

(** [table] of line 123. *)
Definition table_of (name : string) : string :=
  if String.prefix "StreamingHistory" name then "history" else "endsong".

(** [obj["source"] = hist.name] and [obj["id"] = i] *)
Definition stamp (name : string) (i : Z) (obj : pyobj) : pyobj :=
  dict_set String.eqb "id" (VInt i) (dict_set String.eqb "source" (VStr name) obj).

(** [keys_str] of line 131. *)
Definition keys_str (obj : pyobj) : string :=
  String.concat "," (map (fun name => ":" ++ name)%string (map fst obj)).

(** One call of [db.execute] in line 132: the table and the object that
    binds the placeholders. *)
Record insert : Type := mkInsert {
  into : string;
  bindings : pyobj
}.

(** The statement that is sent. *)
Definition sql_text (s : insert) : string :=
  ("INSERT INTO " ++ into s ++ " VALUES (" ++ keys_str (bindings s) ++ ")")%string.

(** The body of the loop of line 127: the statements sent so far and the
    counter [i]. *)
Definition read_object (name : string) (acc : list insert * Z) (obj : pyobj)
    : list insert * Z :=
  (fst acc ++ [mkInsert (table_of name) (stamp name (snd acc) obj)], (snd acc + 1)%Z).

Definition read_file (acc : list insert * Z) (f : json_file) : list insert * Z :=
  fold_left (read_object (file_name f)) (file_objects f) acc.

(** The loop of line 120 over the files of the two globs, those of
    [StreamingHistory*.json] first.  A statement that SQLite refuses ends
    the script; the list holds the statements of a run in which none is
    refused. *)
Definition read_files (history_files endsong_files : list json_file) : list insert * Z :=
  fold_left read_file (history_files ++ endsong_files) ([], 0%Z).

(** ** Writing the result (lines 302-314) *)

Definition null_or {A : Type} (f : A -> value) (x : option A) : value :=
  match x with
  | Some a => f a
  | None => VNone
  end.

(** A row of [endsong_modified] as SELECT * returns it. *)
Definition row_values (r : endsong_row) : list value :=
  let a := aux r in
  [VStr (ts r); null_or VStr (username a); VStr (platform r); VInt (ms_played r);
   null_or VStr (conn_country a); null_or VStr (ip_addr_decrypted a);
   null_or VStr (user_agent_decrypted a);
   null_or VStr (master_metadata_track_name r);
   null_or VStr (master_metadata_album_artist_name r);
   null_or VStr (master_metadata_album_album_name r);
   null_or VStr (spotify_track_uri r);
   null_or VStr (episode_name a); null_or VStr (episode_show_name a);
   null_or VStr (spotify_episode_uri a);
   null_or VStr (reason_start a); null_or VStr (reason_end a);
   null_or VInt (shuffle a); null_or VInt (skipped a); null_or VInt (offline a);
   VInt (offline_timestamp r); null_or VInt (incognito_mode a);
   null_or VStr (source a); VInt (e_id r)].

(** [dict(row)] for a [sqlite3.Row] *)
Definition row_dict (r : endsong_row) : pyobj := combine endsong_columns (row_values r).

(** The body of the loop of line 305. *)
Definition export_row (r : endsong_row) : result pyobj :=
  d <- dict_del String.eqb "source" (row_dict r) ;;
  dict_del String.eqb "id" d.

(** [result], the list that [json.dump] writes. *)
Definition export (m : list endsong_row) : result (list pyobj) :=
  for_each (fun res row => d <- export_row row ;; Ok (res ++ [d])) m [].

(** ** A concrete environment *)

(** Sets that iterate in the order of [nodup]; the operator and the browser
    are given as functions. *)
Definition scripted (answer : string -> list (string * string) -> string)
    (browser : key -> search_result) : Env :=
  {| set_order := fun A dec l => nodup dec l;
     set_order_NoDup := fun A dec l => NoDup_nodup dec l;
     set_order_In := fun A dec l x => nodup_In dec l x;
     input := answer;
     search := browser |}.

Definition no_aux : aux_columns :=
  mkAux None None None None None None None None None None None None None None.

(** A defective row: only the columns that the matching reads are set. *)
Definition broken (t : string) (ms : Z) (offline_ts : Z) (p : Z) : endsong_row :=
  mkEndsong t "ios" ms None None None None offline_ts no_aux p.

(** * Properties *)

(** ** Lists, rows and tables *)

Lemma has_id_true p r : has_id p r = true <-> e_id r = p.
Proof. unfold has_id. apply Z.eqb_eq. Qed.

Lemma has_id_false p r : has_id p r = false <-> e_id r <> p.
Proof. unfold has_id. apply Z.eqb_neq. Qed.

Lemma e_id_set_names t a r : e_id (set_names t a r) = e_id r.
Proof. reflexivity. Qed.

Lemma filter_none {A} (f : A -> bool) (l : list A) :
  (forall x, In x l -> f x = false) -> filter f l = [].
Proof.
  induction l as [|x l IH]; simpl; intros H; [reflexivity|].
  rewrite (H x (or_introl eq_refl)). apply IH. intros y Hy. apply H. now right.
Qed.


Lemma count_id_zero p m : count_id p m = 0 <-> ~ In p (map e_id m).
Proof.
  unfold count_id. split.
  - intros H Hin. apply in_map_iff in Hin as (r & Hr & Hin).
    assert (Hf : In r (filter (has_id p) m)) by (apply filter_In; split; [assumption | now apply has_id_true]).
    destruct (filter (has_id p) m); [contradiction | discriminate].
  - intros H. rewrite filter_none; [reflexivity|].
    intros r Hr. apply has_id_false. intros Heq. apply H. apply in_map_iff. now exists r.
Qed.

Lemma update_where_none cond f m :
  (forall r, In r m -> cond r = false) -> update_where cond f m = m.
Proof.
  unfold update_where. induction m as [|x m IH]; simpl; intros H; [reflexivity|].
  rewrite (H x (or_introl eq_refl)). f_equal. apply IH. intros y Hy. apply H. now right.
Qed.

Lemma update_where_all cond f m :
  (forall r, In r m -> cond r = true) -> update_where cond f m = map f m.
Proof.
  unfold update_where. intros H. apply map_ext_in. intros r Hr. now rewrite (H r Hr).
Qed.

Lemma update_where_app cond f m1 m2 :
  update_where cond f (m1 ++ m2) = update_where cond f m1 ++ update_where cond f m2.
Proof. unfold update_where. apply map_app. Qed.

Lemma update_where_ids cond f m :
  (forall r, e_id (f r) = e_id r) -> map e_id (update_where cond f m) = map e_id m.
Proof.
  intros H. unfold update_where. rewrite map_map. apply map_ext.
  intros r. destruct (cond r); [apply H | reflexivity].
Qed.

(** With unique ids an UPDATE ... WHERE id = ? touches the one row. *)
Lemma update_where_has_id f pre r rest :
  NoDup (map e_id (pre ++ r :: rest)) ->
  update_where (has_id (e_id r)) f (pre ++ r :: rest) = pre ++ f r :: rest.
Proof.
  intros Hnd. rewrite update_where_app. simpl.
  rewrite map_app in Hnd. simpl in Hnd.
  pose proof (NoDup_remove_2 _ _ _ Hnd) as Hn.
  assert (Hid : has_id (e_id r) r = true) by now apply has_id_true.
  rewrite Hid.
  rewrite !update_where_none; [reflexivity | |];
    intros x Hx; apply has_id_false; intros Heq; apply Hn, in_or_app;
    [right | left]; apply in_map_iff; now exists x.
Qed.

Section MergeFacts.

Variable endsong : list endsong_row.

(** When the id is not there yet, the INSERT and the UPDATE append the
    renamed copies of the rows of [endsong] with that id. *)
Lemma insert_and_update_absent p t a m :
  ~ In p (map e_id m) ->
  insert_and_update endsong p t a m
  = m ++ map (set_names t a) (filter (has_id p) endsong).
Proof.
  intros Hn. unfold insert_and_update. rewrite update_where_app. f_equal.
  - apply update_where_none. intros r Hr. apply has_id_false.
    intros Heq. apply Hn, in_map_iff. now exists r.
  - apply update_where_all. intros r Hr. now apply filter_In in Hr.
Qed.

Lemma filter_id_insert_and_update_other p q t a m :
  q <> p ->
  filter (has_id p) (insert_and_update endsong q t a m) = filter (has_id p) m.
Proof.
  intros Hne. unfold insert_and_update, update_where.
  rewrite map_app, filter_app.
  replace (filter (has_id p) (map _ (filter (has_id q) endsong))) with (@nil endsong_row).
  - rewrite app_nil_r. induction m as [|r m IH]; simpl; [reflexivity|].
    destruct (has_id q r) eqn:Hq.
    + apply has_id_true in Hq.
      assert (Hp : has_id p (set_names t a r) = false)
        by (apply has_id_false; rewrite e_id_set_names; congruence).
      assert (Hp' : has_id p r = false) by (apply has_id_false; congruence).
      now rewrite Hp, Hp'.
    + destruct (has_id p r); [f_equal|]; exact IH.
  - symmetry. apply filter_none. intros r Hr.
    apply in_map_iff in Hr as (r0 & <- & Hr0). apply filter_In in Hr0 as [_ Hq].
    apply has_id_true in Hq.
    destruct (has_id q r0); apply has_id_false; simpl; congruence.
Qed.

Lemma filter_id_copy_if_absent_other p q t a st :
  q <> p ->
  filter (has_id p) (endsong_modified (copy_if_absent endsong q t a st))
  = filter (has_id p) (endsong_modified st).
Proof.
  intros Hne. unfold copy_if_absent.
  destruct (Nat.eqb (count_id q (endsong_modified st)) 0); [|reflexivity].
  simpl. now apply filter_id_insert_and_update_other.
Qed.

(** The primary key of [endsong]: one row for an id. *)
Lemma filter_id_unique r :
  NoDup (map e_id endsong) -> In r endsong ->
  filter (has_id (e_id r)) endsong = [r].
Proof.
  intros Hnd Hin. apply in_split in Hin as (l1 & l2 & ->).
  rewrite map_app in Hnd. simpl in Hnd.
  pose proof (NoDup_remove_2 _ _ _ Hnd) as Hn.
  rewrite filter_app. simpl.
  assert (Hid : has_id (e_id r) r = true) by now apply has_id_true.
  rewrite Hid.
  rewrite !filter_none; [reflexivity | |];
    intros x Hx; apply has_id_false; intros Heq; apply Hn, in_or_app;
    [right | left]; apply in_map_iff; now exists x.
Qed.

Lemma same_id_same_row r r' :
  NoDup (map e_id endsong) -> In r endsong -> In r' endsong ->
  e_id r = e_id r' -> r = r'.
Proof.
  intros Hnd Hr Hr' Heq.
  pose proof (filter_id_unique r Hnd Hr) as H.
  assert (Hin : In r' (filter (has_id (e_id r)) endsong))
    by (apply filter_In; split; [assumption | apply has_id_true; congruence]).
  rewrite H in Hin. destruct Hin as [E|[]]. exact E.
Qed.

End MergeFacts.

(** ** Sorting *)

Lemma insert_id_perm x l : Permutation (insert_id x l) (x :: l).
Proof.
  induction l as [|y l IH]; simpl; [reflexivity|].
  destruct (x <=? y)%Z; [reflexivity|].
  rewrite IH. apply perm_swap.
Qed.

Lemma sort_ids_perm l : Permutation (sort_ids l) l.
Proof.
  induction l as [|x l IH]; simpl; [reflexivity|].
  rewrite insert_id_perm. now constructor.
Qed.

Lemma insert_id_sorted x l : Sorted Z.le l -> Sorted Z.le (insert_id x l).
Proof.
  induction l as [|y l IH]; simpl; intros Hs.
  - repeat constructor.
  - destruct (x <=? y)%Z eqn:E.
    + constructor; [assumption|]. constructor. now apply Z.leb_le.
    + apply Z.leb_gt in E. inversion Hs as [|? ? Hs' Hhd]; subst.
      constructor; [now apply IH|].
      destruct l as [|z l]; simpl.
      * constructor. lia.
      * destruct (x <=? z)%Z; constructor; [lia|].
        inversion Hhd; subst. assumption.
Qed.

Lemma sort_ids_sorted l : Sorted Z.le (sort_ids l).
Proof.
  induction l as [|x l IH]; simpl; [constructor|]. now apply insert_id_sorted.
Qed.


Lemma insert_by_offline_perm r l : Permutation (insert_by_offline r l) (r :: l).
Proof.
  induction l as [|y l IH]; simpl; [reflexivity|].
  destruct (offline_timestamp r <=? offline_timestamp y)%Z; [reflexivity|].
  rewrite IH. apply perm_swap.
Qed.

Lemma order_by_offline_perm l : Permutation (order_by_offline l) l.
Proof.
  induction l as [|x l IH]; simpl; [reflexivity|].
  rewrite insert_by_offline_perm. now constructor.
Qed.



(** ** The initial pass *)

Section InitialPass.

Variable history : list history_row.
Variable endsong : list endsong_row.

Local Abbreviation matches_of := (exact_matches history).
Local Abbreviation step := (initial_pass_row history endsong).

Definition no_match (row : endsong_row) : bool :=
  match matches_of row with [] => true | _ => false end.

Definition many_matches (row : endsong_row) : bool :=
  Nat.ltb 1 (List.length (matches_of row)).

Definition cluster_of (row : endsong_row) : list Z :=
  sort_ids (map h_id (matches_of row)).

Lemma exact_matches_spec row h :
  In h (matches_of row) <->
  In h history /\ endTime h = minute_of (ts row) /\ msPlayed h = ms_played row.
Proof.
  unfold exact_matches. rewrite filter_In, andb_true_iff, String.eqb_eq, Z.eqb_eq.
  tauto.
Qed.

Lemma initial_pass_none rows st :
  none (fold_left step rows st) = none st ++ map e_id (filter no_match rows).
Proof.
  revert st. induction rows as [|r rows IH]; intros st; simpl.
  - now rewrite app_nil_r.
  - rewrite IH. unfold initial_pass_row, no_match, copy_if_absent.
    destruct (matches_of r) as [|h [|h' l]]; simpl.
    + now rewrite <- app_assoc.
    + now destruct (Nat.eqb _ 0).
    + reflexivity.
Qed.

Lemma initial_pass_multiple rows st :
  multiple (fold_left step rows st)
  = multiple st ++ map cluster_of (filter many_matches rows).
Proof.
  revert st. induction rows as [|r rows IH]; intros st; simpl.
  - now rewrite app_nil_r.
  - rewrite IH. unfold initial_pass_row, many_matches, copy_if_absent.
    destruct (matches_of r) as [|h [|h' l]] eqn:E; simpl.
    + reflexivity.
    + now destruct (Nat.eqb _ 0).
    + unfold cluster_of at 2. rewrite E. now rewrite <- app_assoc.
Qed.

(** A row of the table changes only in the step of a row with that id and
    exactly one match. *)
Lemma initial_pass_row_other p st r :
  (e_id r = p -> List.length (matches_of r) <> 1) ->
  filter (has_id p) (endsong_modified (step st r))
  = filter (has_id p) (endsong_modified st).
Proof.
  intros H. unfold initial_pass_row.
  destruct (matches_of r) as [|h [|h' l]]; simpl in *; try reflexivity.
  apply filter_id_copy_if_absent_other. intros Heq. now apply H.
Qed.

Lemma initial_pass_other p rows st :
  (forall r, In r rows -> e_id r = p -> List.length (matches_of r) <> 1) ->
  filter (has_id p) (endsong_modified (fold_left step rows st))
  = filter (has_id p) (endsong_modified st).
Proof.
  revert st. induction rows as [|r rows IH]; intros st H; simpl; [reflexivity|].
  rewrite IH by (intros; apply H; [now right | assumption]).
  apply initial_pass_row_other. apply H. now left.
Qed.

Lemma NoDup_ids_filter (f : endsong_row -> bool) l :
  NoDup (map e_id l) -> NoDup (map e_id (filter f l)).
Proof.
  induction l as [|r l IH]; simpl; intros Hnd; [constructor|].
  inversion Hnd as [|? ? Hn Hnd']; subst.
  destruct (f r); simpl; [constructor|]; auto.
  intros Hin. apply Hn. apply in_map_iff in Hin as (x & Hx & Hin).
  apply in_map_iff. exists x. split; [assumption|]. now apply filter_In in Hin.
Qed.

Lemma initial_pass_resolved row h st :
  NoDup (map e_id endsong) -> In row endsong -> is_ios row = true ->
  matches_of row = [h] ->
  ~ In (e_id row) (map e_id (endsong_modified st)) ->
  filter (has_id (e_id row))
    (endsong_modified (fold_left step (filter is_ios endsong) st))
  = [set_names (trackName h) (artistName h) row].
Proof.
  intros Hnd Hin Hios Hm Habs.
  assert (Hin' : In row (filter is_ios endsong)) by (apply filter_In; now split).
  pose proof (NoDup_ids_filter is_ios endsong Hnd) as Hnd'.
  apply in_split in Hin' as (l1 & l2 & Hsplit). rewrite Hsplit in *.
  rewrite map_app in Hnd'. simpl in Hnd'.
  pose proof (NoDup_remove_2 _ _ _ Hnd') as Hn.
  rewrite fold_left_app. simpl.
  rewrite initial_pass_other.
  2:{ intros r Hr Heq. exfalso. apply Hn, in_or_app. right.
      apply in_map_iff. now exists r. }
  assert (H1 : filter (has_id (e_id row)) (endsong_modified (fold_left step l1 st)) = []).
  { rewrite initial_pass_other.
    - apply filter_none. intros x Hx. apply has_id_false. intros Heq.
      apply Habs, in_map_iff. now exists x.
    - intros r Hr Heq. exfalso. apply Hn, in_or_app. left.
      apply in_map_iff. now exists r. }
  set (st1 := fold_left step l1 st) in *.
  assert (Habs1 : ~ In (e_id row) (map e_id (endsong_modified st1))).
  { intros Hc. apply in_map_iff in Hc as (x & Hx & Hc).
    assert (Hf : In x (filter (has_id (e_id row)) (endsong_modified st1)))
      by (apply filter_In; split; [assumption | now apply has_id_true]).
    rewrite H1 in Hf. contradiction. }
  unfold initial_pass_row. rewrite Hm. unfold copy_if_absent.
  pose proof Habs1 as Hc. apply count_id_zero in Hc. rewrite Hc. simpl.
  rewrite (insert_and_update_absent endsong _ _ _ _ Habs1).
  rewrite filter_app, H1. simpl.
  rewrite (filter_id_unique endsong row Hnd Hin). simpl.
  assert (Hid : has_id (e_id row) (set_names (trackName h) (artistName h) row) = true)
    by now apply has_id_true.
  now rewrite Hid.
Qed.

End InitialPass.

(** ** Minute precision *)

Lemma take_app_length (a b : string) : take (String.length a) (a ++ b)%string = a.
Proof.
  induction a as [|c a IH]; simpl.
  - now destruct b.
  - now rewrite IH.
Qed.

Lemma replace_first_app (a b : ascii) (s t : string) :
  has_char a s = false ->
  replace_first a b (s ++ String a t)%string = (s ++ String b t)%string.
Proof.
  induction s as [|c s IH]; simpl; intros H.
  - now rewrite Ascii.eqb_refl.
  - apply orb_false_iff in H as [Hc Hs]. rewrite Hc. now rewrite IH.
Qed.

Lemma string_app_assoc (a b c : string) : ((a ++ b) ++ c = a ++ (b ++ c))%string.
Proof. induction a as [|x a IH]; simpl; [reflexivity | now rewrite IH]. Qed.

Lemma string_length_app (a b : string) :
  String.length (a ++ b)%string = String.length a + String.length b.
Proof. induction a as [|x a IH]; simpl; [reflexivity | now rewrite IH]. Qed.

(** On a timestamp [<date>T<hh:mm><rest>] with a ten-character date the
    key of the initial pass is [<date> <hh:mm>]. *)
Lemma minute_of_iso (date hm rest : string) :
  String.length date = 10 -> String.length hm = 5 -> has_char "T" date = false ->
  minute_of (date ++ String "T" (hm ++ rest))%string = (date ++ String " " hm)%string.
Proof.
  intros Hd Hh Hn. unfold minute_of.
  replace (date ++ String "T" (hm ++ rest))%string
    with ((date ++ String "T" hm) ++ rest)%string
    by (rewrite string_app_assoc; reflexivity).
  replace 16 with (String.length (date ++ String "T" hm)%string)
    by (rewrite string_length_app; simpl; lia).
  rewrite take_app_length. now apply replace_first_app.
Qed.

(** ** A sample database *)

Module Sample.

Definition history : list history_row :=
  [ mkHistory "2022-01-01 10:15" "Y" "X" 180000 "StreamingHistory0.json" 0;
    mkHistory "2022-01-01 10:16" "Unknown Artist" "Unknown Track" 5000 "StreamingHistory0.json" 1;
    mkHistory "2022-01-02 09:00" "A1" "T1" 42000 "StreamingHistory0.json" 2;
    mkHistory "2022-01-03 09:00" "A2" "T2" 42000 "StreamingHistory0.json" 3;
    mkHistory "2022-01-04 09:00" "A1" "T1" 42000 "StreamingHistory0.json" 4;
    mkHistory "2022-01-05 12:30" "B1" "S1" 200000 "StreamingHistory0.json" 5;
    mkHistory "2022-01-05 12:30" "B2" "S2" 200000 "StreamingHistory0.json" 6 ].

Definition intact : endsong_row :=
  mkEndsong "2021-06-01T08:00:00Z" "android" 180000 (Some "X") (Some "Y")
    (Some "Album of X") (Some "spotify:track:0000000000000000000001") 0 no_aux 17.

Definition endsong : list endsong_row :=
  [ broken "2022-01-01T10:15:32Z" 180000 0 10;
    broken "2022-01-01T10:16:05Z" 5000 0 11;
    broken "2022-02-01T08:00:00Z" 42000 0 12;
    broken "2022-02-02T08:00:00Z" 77 0 13;
    broken "2022-01-05T12:30:10Z" 200000 30 14;
    broken "2022-01-05T12:30:20Z" 200000 10 15;
    broken "2022-01-05T12:30:40Z" 200000 20 16;
    intact ].

(** The operator picks the option shown at index 1; the browser finds
    nothing. *)
Definition env : Env := scripted (fun _ _ => "1") (fun _ => NotFound).

End Sample.

(** ** C1: the exact-key matcher *)

(** C1.  The initial pass looks every row of [endsong] on platform ios up in
    [history] by its timestamp cut to the minute and its milliseconds played.
    A row without a match goes to the set [none]; a row with one match gets a
    copy in [endsong_modified] that has the track name and the artist name
    of that match in its two name columns and every other column as it is
    in [endsong] (when its id had no copy yet); a row with several matches adds the
    sorted ids of its matches to the set [multiple], and the next loop takes
    each such cluster once however many rows produced it. *)
Theorem exact_key_matcher_classifies (env : Env) (history : list history_row)
    (endsong m : list endsong_row) :
  NoDup (map e_id endsong) ->
  let st := initial_pass history endsong (mkState m [] [] [] [] 0) in
  let clusters := set_order _ cluster_dec (multiple st) in
  (forall row h, In h (exact_matches history row) <->
     In h history /\ endTime h = minute_of (ts row) /\ msPlayed h = ms_played row)
  /\ (forall date hm rest, String.length date = 10 -> String.length hm = 5 ->
        has_char "T" date = false ->
        minute_of (date ++ String "T" (hm ++ rest))%string = (date ++ String " " hm)%string)
  /\ (forall p, In p (none st) <->
        exists row, In row endsong /\ is_ios row = true /\ e_id row = p
                    /\ exact_matches history row = [])
  /\ (forall row h, In row endsong -> is_ios row = true ->
        exact_matches history row = [h] -> count_id (e_id row) m = 0 ->
        filter (has_id (e_id row)) (endsong_modified st)
        = [mkEndsong (ts row) (platform row) (ms_played row)
             (Some (trackName h)) (Some (artistName h))
             (master_metadata_album_album_name row) (spotify_track_uri row)
             (offline_timestamp row) (aux row) (e_id row)])
  /\ (forall row, In row endsong -> is_ios row = true ->
        List.length (exact_matches history row) <> 1 ->
        filter (has_id (e_id row)) (endsong_modified st) = filter (has_id (e_id row)) m)
  /\ (forall c, In c (multiple st) <->
        exists row, In row endsong /\ is_ios row = true
                    /\ 1 < List.length (exact_matches history row)
                    /\ c = sort_ids (map h_id (exact_matches history row)))
  /\ (forall row, Sorted Z.le (sort_ids (map h_id (exact_matches history row)))
                  /\ Permutation (sort_ids (map h_id (exact_matches history row)))
                       (map h_id (exact_matches history row)))
  /\ NoDup clusters
  /\ (forall c, In c clusters <-> In c (multiple st))
  /\ fix_multiple history endsong st
     = for_each (fix_multiple_entry history endsong) clusters st.
Proof.
  intros Hnd st clusters.
  assert (Hnone : none st = map e_id (filter (no_match history) (filter is_ios endsong)))
    by (unfold st, initial_pass; now rewrite initial_pass_none).
  assert (Hmul : multiple st
                 = map (cluster_of history) (filter (many_matches history) (filter is_ios endsong)))
    by (unfold st, initial_pass; now rewrite initial_pass_multiple).
  split; [apply exact_matches_spec|].
  split; [apply minute_of_iso|].
  split.
  { intros p. rewrite Hnone, in_map_iff. split.
    - intros (row & Hid & Hin). apply filter_In in Hin as [Hin Hno].
      apply filter_In in Hin as [Hin Hios]. exists row. repeat split; try assumption.
      unfold no_match in Hno. now destruct (exact_matches history row).
    - intros (row & Hin & Hios & Hid & Hm). exists row. split; [assumption|].
      apply filter_In. split; [apply filter_In; now split|].
      unfold no_match. now rewrite Hm. }
  split.
  { intros row h Hin Hios Hm Hc. unfold st, initial_pass.
    change (mkEndsong (ts row) (platform row) (ms_played row)
              (Some (trackName h)) (Some (artistName h))
              (master_metadata_album_album_name row) (spotify_track_uri row)
              (offline_timestamp row) (aux row) (e_id row))
      with (set_names (trackName h) (artistName h) row).
    apply initial_pass_resolved; try assumption. simpl. now apply count_id_zero. }
  split.
  { intros row Hin Hios Hlen. unfold st, initial_pass.
    rewrite initial_pass_other; [reflexivity|].
    intros r Hr Heq. apply filter_In in Hr as [Hr _].
    now rewrite (same_id_same_row endsong r row Hnd Hr Hin Heq). }
  split.
  { intros c. rewrite Hmul, in_map_iff. split.
    - intros (row & Hc & Hin). apply filter_In in Hin as [Hin Hmany].
      apply filter_In in Hin as [Hin Hios]. exists row. repeat split; try assumption.
      + unfold many_matches in Hmany. now apply Nat.ltb_lt in Hmany.
      + now symmetry.
    - intros (row & Hin & Hios & Hlen & ->). exists row. split; [reflexivity|].
      apply filter_In. split; [apply filter_In; now split|].
      unfold many_matches. now apply Nat.ltb_lt. }
  split; [intros row; split; [apply sort_ids_sorted | apply sort_ids_perm]|].
  split; [apply set_order_NoDup|].
  split; [intros c; apply set_order_In | reflexivity].
Qed.

Lemma exact_key_matcher_classifies_witness :
  let st := initial_pass Sample.history Sample.endsong (mkState [] [] [] [] [] 0) in
  NoDup (map e_id Sample.endsong)
  /\ In 13%Z (none st)
  /\ filter (has_id 10) (endsong_modified st)
     = [mkEndsong "2022-01-01T10:15:32Z" "ios" 180000 (Some "X") (Some "Y")
          None None 0 no_aux 10]
  /\ In [5; 6]%Z (multiple st)
  /\ NoDup (@set_order Sample.env _ cluster_dec (multiple st)).
Proof.
  intros st.
  assert (H : NoDup (map e_id Sample.endsong))
    by (simpl; repeat constructor; simpl; intuition discriminate).
  split; [exact H|].
  pose proof (exact_key_matcher_classifies Sample.env Sample.history Sample.endsong [] H)
    as (_ & _ & Hnone & Hone & _ & Hmany & _ & Hnd & _).
  split; [|split; [|split; [|exact Hnd]]].
  - apply Hnone. exists (broken "2022-02-02T08:00:00Z" 77 0 13).
    repeat split. simpl. tauto.
  - apply (Hone (broken "2022-01-01T10:15:32Z" 180000 0 10)
             (mkHistory "2022-01-01 10:15" "Y" "X" 180000 "StreamingHistory0.json" 0));
      [simpl; tauto | reflexivity | reflexivity | reflexivity].
  - apply Hmany. exists (broken "2022-01-05T12:30:10Z" 200000 30 14).
    split; [simpl; tauto|]. split; [reflexivity|]. split; [simpl; lia | reflexivity].
Defined.

(** ** LIKE on timestamps *)








Lemma like_percent s : like "%" s = true.
Proof.
  induction s as [|c s IH]; [reflexivity|].
  simpl in *. now rewrite IH.
Qed.



(** ** Sequences of copies *)

(** One guarded copy: the id of the [endsong] row and the two names. *)
Definition attempt : Type := (Z * string * string)%type.

Definition attempt_id (a : attempt) : Z := fst (fst a).

Definition try_copy (endsong : list endsong_row) (st : state) (a : attempt) : state :=
  copy_if_absent endsong (attempt_id a) (snd (fst a)) (snd a) st.

Definition attempt_of_pair (he : history_row * endsong_row) : attempt :=
  (e_id (snd he), trackName (fst he), artistName (fst he)).

Lemma fold_left_map_step {A B C} (f : A -> C -> A) (g : B -> C) (l : list B) (a : A) :
  fold_left (fun acc b => f acc (g b)) l a = fold_left f (map g l) a.
Proof. revert a. induction l as [|b l IH]; intros a; simpl; [reflexivity | apply IH]. Qed.



Section Attempts.

Variable endsong : list endsong_row.
Hypothesis endsong_key : NoDup (map e_id endsong).



End Attempts.

(** ** C2: clusters *)


Lemma cluster_endsong_perm (endsong : list endsong_row) (h0 : history_row) :
  Permutation (cluster_endsong endsong h0)
    (filter (fun r => is_ios r && Z.eqb (ms_played r) (msPlayed h0)
                      && like (ts_like h0) (ts r)) endsong).
Proof. apply order_by_offline_perm. Qed.




Module SampleFacts.

Lemma endsong_key : NoDup (map e_id Sample.endsong).
Proof. simpl. repeat constructor; simpl; intuition discriminate. Qed.




Lemma history_quote_free h : In h Sample.history -> quote_free (endTime h) = true.
Proof. intros H. simpl in H. repeat (destruct H as [<-|H]; [reflexivity|]). contradiction. Qed.

End SampleFacts.


(** ** C4: the duration fallback *)

Lemma copy_row_appends (endsong : list endsong_row) (row : endsong_row) t a st :
  NoDup (map e_id endsong) -> In row endsong ->
  count_id (e_id row) (endsong_modified st) = 0 ->
  endsong_modified (copy_row endsong (e_id row) t a st)
  = endsong_modified st ++ [set_names t a row].
Proof.
  intros Hkey Hin Hc. simpl.
  rewrite insert_and_update_absent by now apply count_id_zero.
  now rewrite (filter_id_unique endsong row Hkey Hin).
Qed.

Lemma copy_row_state (endsong : list endsong_row) (row : endsong_row) t a st :
  NoDup (map e_id endsong) -> In row endsong ->
  count_id (e_id row) (endsong_modified st) = 0 ->
  copy_row endsong (e_id row) t a st
  = mkState
      (endsong_modified st
       ++ [mkEndsong (ts row) (platform row) (ms_played row) (Some t) (Some a)
             (master_metadata_album_album_name row) (spotify_track_uri row)
             (offline_timestamp row) (aux row) (e_id row)])
      (multiple st) (none st) (missing st) (unsure st) (S (updated st)).
Proof.
  intros Hkey Hin Hc. unfold copy_row.
  rewrite insert_and_update_absent by now apply count_id_zero.
  now rewrite (filter_id_unique endsong row Hkey Hin).
Qed.

(** C4.  For an id of the set [none] that has no copy yet, the loop over the
    entries with no matches selects the (artist, track) pairs of all rows of
    [history] with the same milliseconds played.  Without such a row the id
    is added to [missing]; with one distinct pair the row is copied with that
    pair; with two or more the operator is shown the timestamp and the
    distinct pairs, and the answer u or U adds the id to [unsure] and leaves
    the table alone, while the index of a listed pair copies the row with
    that pair.  A copy is the row of [endsong] with the track and the artist
    of the pair in its two name columns, put last in the table, and it
    counts as an update.  The loop visits every member of [none] once and
    passes over the ids that have a copy. *)
Theorem duration_fallback_classifies (env : Env) (history : list history_row)
    (endsong : list endsong_row) (st : state) (row : endsong_row) :
  NoDup (map e_id endsong) -> In row endsong ->
  count_id (e_id row) (endsong_modified st) = 0 ->
  let entry := e_id row in
  let matches := duration_matches history (ms_played row) in
  let options := set_order _ pair_dec matches in
  let x := input (ts row) options in
  let copied := fun track artist : string =>
    mkState
      (endsong_modified st
       ++ [mkEndsong (ts row) (platform row) (ms_played row) (Some track) (Some artist)
             (master_metadata_album_album_name row) (spotify_track_uri row)
             (offline_timestamp row) (aux row) (e_id row)])
      (multiple st) (none st) (missing st) (unsure st) (S (updated st)) in
  (forall pr, In pr matches <->
     exists h, In h history /\ msPlayed h = ms_played row
               /\ pr = (artistName h, trackName h))
  /\ NoDup options
  /\ (forall pr, In pr options <-> In pr matches)
  /\ (matches = [] ->
      fix_none_entry history endsong st entry
      = Ok (mkState (endsong_modified st) (multiple st) (none st)
              (missing st ++ [entry]) (unsure st) (updated st)))
  /\ (forall artist track, options = [(artist, track)] ->
      fix_none_entry history endsong st entry = Ok (copied track artist))
  /\ (2 <= List.length options ->
      (x = "u" \/ x = "U" ->
       fix_none_entry history endsong st entry
       = Ok (mkState (endsong_modified st) (multiple st) (none st)
               (missing st) (unsure st ++ [entry]) (updated st)))
      /\ (forall j artist track,
            x <> "u" -> x <> "U" -> parse_int x = Some (Z.of_nat j) ->
            nth_error options j = Some (artist, track) ->
            fix_none_entry history endsong st entry = Ok (copied track artist)))
  /\ NoDup (set_order _ Z.eq_dec (none st))
  /\ fix_none history endsong st
     = for_each (fix_none_entry history endsong) (set_order _ Z.eq_dec (none st)) st
  /\ (forall st0 p, count_id p (endsong_modified st0) <> 0 ->
        fix_none_entry history endsong st0 p = Ok st0).
Proof.
  intros Hkey Hin Hc entry matches options x copied.
  assert (Hopt : forall pr, In pr options <-> In pr matches) by (intros; apply set_order_In).
  assert (Hcopy : forall track artist,
            copy_row endsong entry track artist st = copied track artist)
    by (intros; now apply copy_row_state).
  assert (Hstep : fix_none_entry history endsong st entry
                  = match matches with
                    | [] => Ok (add_missing entry st)
                    | first :: _ =>
                        if Nat.ltb 1 (List.length options) then
                          if String.eqb x "U" || String.eqb x "u" then Ok (add_unsure entry st)
                          else match parse_int x with
                               | None => Raise ValueError
                               | Some j =>
                                   match py_index options j with
                                   | None => Raise IndexError
                                   | Some choice => Ok (copy_row endsong entry (snd choice) (fst choice) st)
                                   end
                               end
                        else Ok (copy_row endsong entry (snd first) (fst first) st)
                    end).
  { unfold fix_none_entry. fold entry. unfold entry at 1 2. rewrite Hc. cbn [Nat.eqb].
    rewrite (filter_id_unique endsong row Hkey Hin). reflexivity. }
  split.
  { intros pr. unfold matches, duration_matches. rewrite in_map_iff. split.
    - intros (h & <- & Hh). apply filter_In in Hh as [Hh Hms]. apply Z.eqb_eq in Hms.
      now exists h.
    - intros (h & Hh & Hms & ->). exists h. split; [reflexivity|].
      apply filter_In. split; [assumption | now apply Z.eqb_eq]. }
  split; [apply set_order_NoDup|].
  split; [exact Hopt|].
  split; [intros Hm; now rewrite Hstep, Hm|].
  split.
  { intros artist track Hone. rewrite Hstep.
    destruct matches as [|first l] eqn:Em.
    - assert (H : In (artist, track) options) by (rewrite Hone; now left).
      apply Hopt in H. contradiction.
    - rewrite Hone. cbn [List.length Nat.ltb Nat.leb].
      assert (H : In first options) by (apply Hopt; now left).
      rewrite Hone in H. destruct H as [<-|[]]. cbn [fst snd]. now rewrite Hcopy. }
  split.
  { intros Hlen.
    assert (Hlt : Nat.ltb 1 (List.length options) = true) by (apply Nat.ltb_lt; lia).
    destruct matches as [|first l] eqn:Em.
    - exfalso. destruct options as [|o os]; [simpl in Hlen; lia|].
      apply (proj1 (Hopt o)). now left.
    - rewrite Hstep, Hlt. split.
      + intros [Hx|Hx]; rewrite Hx; reflexivity.
      + intros j artist track Hu HU Hp Hnth.
        apply String.eqb_neq in Hu, HU. rewrite Hu, HU. cbn [orb]. rewrite Hp.
        unfold py_index.
        assert (H0 : (0 <=? Z.of_nat j)%Z = true) by (apply Z.leb_le; lia).
        rewrite H0, Nat2Z.id, Hnth. cbn [fst snd]. now rewrite Hcopy. }
  split; [apply set_order_NoDup|].
  split; [reflexivity|].
  intros st0 p Hp. unfold fix_none_entry. apply Nat.eqb_neq in Hp. now rewrite Hp.
Qed.

Lemma duration_fallback_classifies_witness :
  NoDup (map e_id Sample.endsong)
  /\ In (broken "2022-02-01T08:00:00Z" 42000 0 12) Sample.endsong
  /\ @fix_none_entry Sample.env Sample.history Sample.endsong (mkState [] [] [12; 13]%Z [] [] 0) 12
     = Ok (mkState
             [mkEndsong "2022-02-01T08:00:00Z" "ios" 42000 (Some "T1") (Some "A1")
                None None 0 no_aux 12]
             [] [12; 13]%Z [] [] 1)
  /\ @fix_none_entry Sample.env Sample.history Sample.endsong (mkState [] [] [12; 13]%Z [] [] 0) 13
     = Ok (mkState [] [] [12; 13]%Z [13]%Z [] 0)
  /\ @fix_none_entry (scripted (fun _ _ => "u") (fun _ => NotFound))
       Sample.history Sample.endsong (mkState [] [] [12; 13]%Z [] [] 0) 12
     = Ok (mkState [] [] [12; 13]%Z [] [12]%Z 0).
Proof.
  split; [exact SampleFacts.endsong_key|].
  split; [simpl; tauto|].
  split; [|split].
  - pose proof (duration_fallback_classifies Sample.env Sample.history Sample.endsong
                  (mkState [] [] [12; 13]%Z [] [] 0)
                  (broken "2022-02-01T08:00:00Z" 42000 0 12)
                  SampleFacts.endsong_key) as H.
    destruct H as (_ & _ & _ & _ & _ & Hmany & _); [simpl; tauto | reflexivity |].
    destruct Hmany as [_ Hpick]; [simpl; lia|].
    apply (Hpick 1 "A1" "T1"); [discriminate | discriminate | reflexivity | reflexivity].
  - pose proof (duration_fallback_classifies Sample.env Sample.history Sample.endsong
                  (mkState [] [] [12; 13]%Z [] [] 0)
                  (broken "2022-02-02T08:00:00Z" 77 0 13)
                  SampleFacts.endsong_key) as H.
    destruct H as (_ & _ & _ & Hnone & _); [simpl; tauto | reflexivity |].
    apply Hnone. reflexivity.
  - pose proof (duration_fallback_classifies (scripted (fun _ _ => "u") (fun _ => NotFound))
                  Sample.history Sample.endsong
                  (mkState [] [] [12; 13]%Z [] [] 0)
                  (broken "2022-02-01T08:00:00Z" 42000 0 12)
                  SampleFacts.endsong_key) as H.
    destruct H as (_ & _ & _ & _ & _ & Hmany & _); [simpl; tauto | reflexivity |].
    destruct Hmany as [Hu _]; [simpl; lia|].
    apply Hu. now left.
Defined.

(** ** The three loops as one sequence of guarded copies and visits *)

Definition with_sets (mu : list (list Z)) (no : list Z) (st : state) : state :=
  mkState (endsong_modified st) mu no (missing st) (unsure st) (updated st).

Section Plan.

Context {env : Env}.
Variable history : list history_row.
Variable endsong : list endsong_row.

Definition single_attempts (rows : list endsong_row) : list attempt :=
  flat_map (fun row => match exact_matches history row with
                       | [h] => [(e_id row, trackName h, artistName h)]
                       | _ => []
                       end) rows.

Definition cluster_attempts (entry : list Z) : list attempt :=
  match cluster_history history entry with
  | [] => []
  | h0 :: _ =>
      map attempt_of_pair (combine (cluster_history history entry) (cluster_endsong endsong h0))
  end.

Definition all_none : list Z :=
  map e_id (filter (no_match history) (filter is_ios endsong)).

Definition all_multiple : list (list Z) :=
  map (cluster_of history) (filter (many_matches history) (filter is_ios endsong)).

(** The copies that the first two loops try, in order. *)
Definition plan : list attempt :=
  single_attempts (filter is_ios endsong)
  ++ flat_map cluster_attempts (set_order _ cluster_dec all_multiple).

Lemma try_copy_with_sets mu no st a :
  try_copy endsong (with_sets mu no st) a = with_sets mu no (try_copy endsong st a).
Proof.
  unfold try_copy, copy_if_absent, with_sets. simpl.
  now destruct (Nat.eqb (count_id (attempt_id a) (endsong_modified st)) 0).
Qed.

Lemma try_copy_all_with_sets mu no acts st :
  fold_left (try_copy endsong) acts (with_sets mu no st)
  = with_sets mu no (fold_left (try_copy endsong) acts st).
Proof.
  revert st. induction acts as [|a acts IH]; intros st; simpl; [reflexivity|].
  now rewrite try_copy_with_sets, IH.
Qed.

Lemma try_copy_all_sets acts st :
  multiple (fold_left (try_copy endsong) acts st) = multiple st
  /\ none (fold_left (try_copy endsong) acts st) = none st
  /\ missing (fold_left (try_copy endsong) acts st) = missing st
  /\ unsure (fold_left (try_copy endsong) acts st) = unsure st.
Proof.
  revert st. induction acts as [|a acts IH]; intros st; simpl; [now repeat split|].
  destruct (IH (try_copy endsong st a)) as (-> & -> & -> & ->).
  unfold try_copy, copy_if_absent.
  now destruct (Nat.eqb (count_id (attempt_id a) (endsong_modified st)) 0).
Qed.

Lemma initial_pass_plan rows st :
  fold_left (initial_pass_row history endsong) rows st
  = with_sets (multiple st ++ map (cluster_of history) (filter (many_matches history) rows))
      (none st ++ map e_id (filter (no_match history) rows))
      (fold_left (try_copy endsong) (single_attempts rows) st).
Proof.
  revert st. induction rows as [|r rows IH]; intros st.
  - simpl. rewrite !app_nil_r. now destruct st.
  - cbn [fold_left]. rewrite IH. clear IH.
    change (single_attempts (r :: rows))
      with (match exact_matches history r with
            | [h] => [(e_id r, trackName h, artistName h)]
            | _ => []
            end ++ single_attempts rows).
    cbn [filter]. unfold initial_pass_row, many_matches at 2, no_match at 2, cluster_of at 2.
    destruct (exact_matches history r) as [|h [|h' l]] eqn:E.
    + change (mkState (endsong_modified st) (multiple st) (none st ++ [e_id r])
                (missing st) (unsure st) (updated st))
        with (with_sets (multiple st) (none st ++ [e_id r]) st).
      rewrite try_copy_all_with_sets.
      unfold with_sets.
      cbn [multiple none endsong_modified missing unsure updated
           List.length Nat.ltb Nat.leb app map].
      now rewrite <- app_assoc.
    + change (copy_if_absent endsong (e_id r) (trackName h) (artistName h) st)
        with (try_copy endsong st (e_id r, trackName h, artistName h)).
      cbn [List.length Nat.ltb Nat.leb app fold_left].
      set (st1 := try_copy endsong st (e_id r, trackName h, artistName h)).
      assert (Hs : multiple st1 = multiple st /\ none st1 = none st).
      { unfold st1, try_copy, copy_if_absent.
        now destruct (Nat.eqb _ 0). }
      destruct Hs as [-> ->]. reflexivity.
    + change (mkState (endsong_modified st)
                (multiple st ++ [sort_ids (map h_id (h :: h' :: l))]) (none st)
                (missing st) (unsure st) (updated st))
        with (with_sets (multiple st ++ [sort_ids (map h_id (h :: h' :: l))]) (none st) st).
      rewrite try_copy_all_with_sets.
      unfold with_sets.
      cbn [multiple none endsong_modified missing unsure updated
           List.length Nat.ltb Nat.leb app map].
      rewrite E. now rewrite <- app_assoc.
Qed.

(** Every cluster that the initial pass records has rows in [history]. *)
Lemma cluster_history_nonempty c :
  In c all_multiple -> cluster_history history c <> [].
Proof.
  unfold all_multiple. intros Hc. apply in_map_iff in Hc as (row & <- & Hrow).
  apply filter_In in Hrow as [_ Hmany]. unfold many_matches in Hmany.
  apply Nat.ltb_lt in Hmany.
  destruct (exact_matches history row) as [|h l] eqn:E; [simpl in Hmany; lia|].
  assert (Hh : In h (cluster_history history (cluster_of history row))).
  { unfold cluster_history. apply filter_In. split.
    - assert (H : In h (exact_matches history row)) by (rewrite E; now left).
      now apply exact_matches_spec in H.
    - apply existsb_exists. exists (h_id h). split; [|apply Z.eqb_refl].
      unfold cluster_of. apply (Permutation_in _ (Permutation_sym (sort_ids_perm _))).
      rewrite E. now left. }
  intros Hnil. rewrite Hnil in Hh. contradiction.
Qed.

(** No [endTime] holds a single quote. *)
Definition quote_free_history : Prop :=
  forall h, In h history -> quote_free (endTime h) = true.

Lemma fix_multiple_entry_ok st c st' :
  fix_multiple_entry history endsong st c = Ok st' ->
  st' = fold_left (try_copy endsong) (cluster_attempts c) st.
Proof.
  unfold fix_multiple_entry, cluster_attempts.
  destruct (cluster_history history c) as [|h0 rest] eqn:E; [discriminate|].
  destruct (quote_free (endTime h0)); [|discriminate].
  intros H. injection H as <-. unfold pair_up. now rewrite <- fold_left_map_step.
Qed.

Lemma fix_multiple_entry_plan st c :
  quote_free_history ->
  cluster_history history c <> [] ->
  fix_multiple_entry history endsong st c
  = Ok (fold_left (try_copy endsong) (cluster_attempts c) st).
Proof.
  intros Hq Hne. unfold fix_multiple_entry, cluster_attempts.
  destruct (cluster_history history c) as [|h0 rest] eqn:E; [contradiction|].
  assert (Hh0 : In h0 history).
  { assert (H : In h0 (cluster_history history c)) by (rewrite E; now left).
    unfold cluster_history in H. now apply filter_In in H. }
  rewrite (Hq h0 Hh0).
  f_equal. unfold pair_up. now rewrite <- fold_left_map_step.
Qed.

Lemma fix_multiple_entries_ok cs st st' :
  for_each (fix_multiple_entry history endsong) cs st = Ok st' ->
  st' = fold_left (try_copy endsong) (flat_map cluster_attempts cs) st.
Proof.
  revert st. induction cs as [|c cs IH]; intros st H.
  - injection H as <-. reflexivity.
  - cbn [for_each flat_map] in *.
    destruct (fix_multiple_entry history endsong st c) as [st1|] eqn:E; [|discriminate].
    cbn [bind] in H. apply fix_multiple_entry_ok in E. subst st1.
    rewrite fold_left_app. now apply IH.
Qed.

Lemma fix_multiple_entries_plan cs st :
  quote_free_history ->
  (forall c, In c cs -> cluster_history history c <> []) ->
  for_each (fix_multiple_entry history endsong) cs st
  = Ok (fold_left (try_copy endsong) (flat_map cluster_attempts cs) st).
Proof.
  intros Hq. revert st. induction cs as [|c cs IH]; intros st H; [reflexivity|].
  cbn [for_each flat_map].
  rewrite (fix_multiple_entry_plan _ _ Hq) by (apply H; now left).
  cbn [bind]. rewrite IH by (intros; apply H; now right).
  now rewrite fold_left_app.
Qed.

(** The state in which the loop over [none] starts. *)
Definition after_copies (m : list endsong_row) : state :=
  with_sets all_multiple all_none
    (fold_left (try_copy endsong) plan (mkState m [] [] [] [] 0)).

Lemma fix_multiple_ok m st2 :
  fix_multiple history endsong (initial_pass history endsong (mkState m [] [] [] [] 0))
  = Ok st2 ->
  st2 = after_copies m.
Proof.
  unfold initial_pass, fix_multiple.
  rewrite initial_pass_plan. cbn [multiple none app].
  fold all_multiple all_none. cbn [with_sets multiple].
  change (mkState ?m' all_multiple all_none ?mi ?un ?up)
    with (with_sets all_multiple all_none (mkState m' [] [] mi un up)).
  intros H. apply fix_multiple_entries_ok in H. subst st2.
  unfold after_copies, plan. rewrite fold_left_app.
  rewrite try_copy_all_with_sets. reflexivity.
Qed.

Lemma fix_multiple_plan m :
  quote_free_history ->
  fix_multiple history endsong (initial_pass history endsong (mkState m [] [] [] [] 0))
  = Ok (after_copies m).
Proof.
  intros Hq. unfold initial_pass, fix_multiple.
  rewrite initial_pass_plan. cbn [multiple none app].
  fold all_multiple all_none. cbn [with_sets multiple].
  change (mkState ?m' all_multiple all_none ?mi ?un ?up)
    with (with_sets all_multiple all_none (mkState m' [] [] mi un up)).
  rewrite (fix_multiple_entries_plan _ _ Hq).
  2:{ intros c Hc. apply cluster_history_nonempty. now apply set_order_In in Hc. }
  unfold after_copies, plan. rewrite fold_left_app.
  rewrite try_copy_all_with_sets. reflexivity.
Qed.

Lemma resolve_ok m st :
  resolve history endsong m = Ok st ->
  for_each (fix_none_entry history endsong) (set_order _ Z.eq_dec all_none) (after_copies m)
  = Ok st.
Proof.
  unfold resolve.
  destruct (fix_multiple history endsong
              (initial_pass history endsong (mkState m [] [] [] [] 0))) as [st2|] eqn:E;
    [|discriminate].
  apply fix_multiple_ok in E. subst st2. cbn [bind]. unfold fix_none.
  intros H. exact H.
Qed.

Lemma resolve_plan m :
  quote_free_history ->
  resolve history endsong m
  = for_each (fix_none_entry history endsong) (set_order _ Z.eq_dec all_none) (after_copies m).
Proof. intros Hq. unfold resolve. rewrite (fix_multiple_plan m Hq). reflexivity. Qed.

End Plan.

(** ** C10: Spotify URIs *)

Section Uris.

Variable cond : string -> bool.
Variable fixed : string -> string.

(** What one of the two passes does to a row. *)
Definition fix_row (r : endsong_row) : endsong_row :=
  match spotify_track_uri r with
  | Some u => if cond u then set_uri (fixed u) r else r
  | None => r
  end.

Lemma e_id_fix_row r : e_id (fix_row r) = e_id r.
Proof.
  unfold fix_row. destruct (spotify_track_uri r) as [u|]; [|reflexivity].
  now destruct (cond u).
Qed.

Lemma fix_pass_from pre todo :
  NoDup (map e_id (pre ++ todo)) ->
  fold_left (fix_uri fixed) (select_uris cond todo) (pre ++ todo)
  = pre ++ map fix_row todo.
Proof.
  revert pre. induction todo as [|r todo IH]; intros pre Hnd; [reflexivity|].
  assert (Hnd' : NoDup (map e_id ((pre ++ [fix_row r]) ++ todo))).
  { rewrite <- app_assoc. simpl. rewrite map_app in *. simpl in *.
    now rewrite e_id_fix_row. }
  specialize (IH (pre ++ [fix_row r]) Hnd'). rewrite <- !app_assoc in IH.
  change ([fix_row r] ++ todo) with (fix_row r :: todo) in IH.
  change ([fix_row r] ++ map fix_row todo) with (map fix_row (r :: todo)) in IH.
  rewrite <- IH. clear IH.
  change (select_uris cond (r :: todo))
    with (match spotify_track_uri r with
          | Some u => if cond u then [(e_id r, u)] else []
          | None => []
          end ++ select_uris cond todo).
  unfold fix_row.
  destruct (spotify_track_uri r) as [u|] eqn:Eu; [|reflexivity].
  destruct (cond u) eqn:Ec; [|reflexivity].
  cbn [app fold_left]. unfold fix_uri at 2. cbn [fst snd].
  now rewrite (update_where_has_id _ pre r todo Hnd).
Qed.

Lemma fix_pass_map m :
  NoDup (map e_id m) ->
  fold_left (fix_uri fixed) (select_uris cond m) m = map fix_row m.
Proof. intros H. apply (fix_pass_from [] m H). Qed.

End Uris.

Definition normalize_row (r : endsong_row) : endsong_row :=
  fix_row (fun u => negb (like "spotify%" u)) spotify_track
    (fix_row (like "https%") (fun uri => spotify_track (strip_link uri)) r).

Lemma e_id_normalize_row r : e_id (normalize_row r) = e_id r.
Proof. unfold normalize_row. now rewrite !e_id_fix_row. Qed.

Lemma fix_uris_map m :
  NoDup (map e_id m) -> fix_uris_2 (fix_uris_1 m) = map normalize_row m.
Proof.
  intros Hnd. unfold fix_uris_2, fix_uris_1.
  rewrite (fix_pass_map _ _ m Hnd).
  rewrite fix_pass_map.
  - rewrite map_map. reflexivity.
  - rewrite map_map.
    rewrite (map_ext _ e_id (e_id_fix_row _ _)). exact Hnd.
Qed.

Lemma before_app (c : ascii) (s t : string) :
  has_char c s = false -> before c (s ++ t)%string = (s ++ before c t)%string.
Proof.
  induction s as [|x s IH]; simpl; intros H; [reflexivity|].
  apply orb_false_iff in H as [Hx Hs]. rewrite Hx. now rewrite IH.
Qed.

Lemma drop_app_length (a b : string) : drop (String.length a) (a ++ b)%string = b.
Proof. induction a as [|c a IH]; simpl; [now destruct b | exact IH]. Qed.

Lemma string_app_nil_r (s : string) : (s ++ "")%string = s.
Proof. induction s as [|c s IH]; simpl; [reflexivity | now rewrite IH]. Qed.

(** The web address of a track. *)
Definition track_link (track_id query : string) : string :=
  ("https://open.spotify.com/track/" ++ track_id ++ String "?" query)%string.

Lemma strip_link_track_link track_id query :
  has_char "?" track_id = false -> strip_link (track_link track_id query) = track_id.
Proof.
  intros H. unfold strip_link, track_link.
  rewrite (before_app "?" "https://open.spotify.com/track/") by reflexivity.
  rewrite (before_app "?" track_id) by assumption.
  cbn [before]. rewrite Ascii.eqb_refl, string_app_nil_r.
  apply (drop_app_length "https://open.spotify.com/track/").
Qed.

Lemma like_spotify_track s : like "spotify%" (spotify_track s) = true.
Proof. unfold spotify_track. simpl. apply like_percent. Qed.

Lemma like_https_track_link track_id query :
  like "https%" (track_link track_id query) = true.
Proof. unfold track_link. simpl. apply like_percent. Qed.

(** The two passes leave [spotify:track:<id>] alone, turn the link of a
    track into [spotify:track:<id>], and wrap every other value that does
    not begin with [https] or with [spotify] (in any letter case). *)
Lemma normalize_row_cases r track_id :
  (spotify_track_uri r = Some (spotify_track track_id) -> normalize_row r = r)
  /\ (forall query, has_char "?" track_id = false ->
        spotify_track_uri r = Some (track_link track_id query) ->
        normalize_row r = set_uri (spotify_track track_id) r)
  /\ (like "https%" track_id = false -> like "spotify%" track_id = false ->
      spotify_track_uri r = Some track_id ->
      normalize_row r = set_uri (spotify_track track_id) r).
Proof.
  unfold normalize_row. split; [|split].
  - intros H. unfold fix_row at 2. rewrite H.
    replace (like "https%" (spotify_track track_id)) with false by reflexivity.
    unfold fix_row. rewrite H. now rewrite like_spotify_track.
  - intros query Hq H. unfold fix_row at 2. rewrite H, like_https_track_link.
    rewrite (strip_link_track_link _ _ Hq).
    unfold fix_row. cbn [spotify_track_uri set_uri set_track_data].
    now rewrite like_spotify_track.
  - intros H1 H2 H. unfold fix_row at 2. rewrite H, H1.
    unfold fix_row. now rewrite H, H2.
Qed.

Definition with_uri (p : Z) (uri : string) : endsong_row :=
  mkEndsong "2022-01-01T10:15:32Z" "ios" 180000 (Some "X") (Some "Y") (Some "Album of X")
    (Some uri) 0 no_aux p.

(** C10, as stated, fails for a track whose id begins with [spotify]: the
    link of the track is turned into [spotify:track:<id>], the bare id is
    taken for a finished URI and left as it is. *)
Lemma uri_round_trip_counterexample :
  map spotify_track_uri
    (fix_uris_2
       (fix_uris_1
          [ with_uri 1 "https://open.spotify.com/track/spotify000000000000000?si=abc";
            with_uri 2 "spotify000000000000000" ]))
  = [ Some "spotify:track:spotify000000000000000"; Some "spotify000000000000000" ].
Proof. reflexivity. Qed.

(** C10 (amended).  On a table with unique ids the two passes over the
    Spotify URIs leave a row with [spotify:track:<id>] unchanged, and give a
    row that holds the link of the track ([https://open.spotify.com/track/]
    followed by the id and query parameters) and a row that holds the bare
    id the same URI [spotify:track:<id>], when the bare id does not itself
    begin with [https] or [spotify] in any letter case. *)
Theorem uri_normalization_round_trip (m : list endsong_row) (r : endsong_row)
    (track_id : string) :
  NoDup (map e_id m) -> In r m ->
  let out := fix_uris_2 (fix_uris_1 m) in
  map e_id out = map e_id m
  /\ (spotify_track_uri r = Some (spotify_track track_id) -> In r out)
  /\ (forall query, has_char "?" track_id = false ->
        spotify_track_uri r = Some (track_link track_id query) ->
        In (set_uri (spotify_track track_id) r) out)
  /\ (like "https%" track_id = false -> like "spotify%" track_id = false ->
      spotify_track_uri r = Some track_id ->
      In (set_uri (spotify_track track_id) r) out).
Proof.
  intros Hnd Hin out. unfold out. rewrite (fix_uris_map m Hnd).
  destruct (normalize_row_cases r track_id) as (Hc & Hl & Hb).
  split.
  { rewrite map_map. apply map_ext. apply e_id_normalize_row. }
  split; [|split].
  - intros H. rewrite <- (Hc H). now apply in_map.
  - intros query Hq H. rewrite <- (Hl query Hq H). now apply in_map.
  - intros H1 H2 H. rewrite <- (Hb H1 H2 H). now apply in_map.
Qed.

Lemma uri_normalization_round_trip_witness :
  let m := [ with_uri 1 "https://open.spotify.com/track/4uLU6hMCjMI75M1A2tKUQC?si=abc";
             with_uri 2 "4uLU6hMCjMI75M1A2tKUQC";
             with_uri 3 "spotify:track:4uLU6hMCjMI75M1A2tKUQC" ] in
  NoDup (map e_id m)
  /\ In (with_uri 1 "spotify:track:4uLU6hMCjMI75M1A2tKUQC") (fix_uris_2 (fix_uris_1 m))
  /\ In (with_uri 2 "spotify:track:4uLU6hMCjMI75M1A2tKUQC") (fix_uris_2 (fix_uris_1 m))
  /\ In (with_uri 3 "spotify:track:4uLU6hMCjMI75M1A2tKUQC") (fix_uris_2 (fix_uris_1 m)).
Proof.
  intros m.
  assert (Hnd : NoDup (map e_id m)) by (simpl; repeat constructor; simpl; intuition discriminate).
  split; [exact Hnd|].
  split; [|split].
  - destruct (uri_normalization_round_trip m
                (with_uri 1 "https://open.spotify.com/track/4uLU6hMCjMI75M1A2tKUQC?si=abc")
                "4uLU6hMCjMI75M1A2tKUQC" Hnd) as (_ & _ & Hl & _); [simpl; tauto|].
    apply (Hl "si=abc"); reflexivity.
  - destruct (uri_normalization_round_trip m (with_uri 2 "4uLU6hMCjMI75M1A2tKUQC")
                "4uLU6hMCjMI75M1A2tKUQC" Hnd) as (_ & _ & _ & Hb); [simpl; tauto|].
    apply Hb; reflexivity.
  - destruct (uri_normalization_round_trip m (with_uri 3 "spotify:track:4uLU6hMCjMI75M1A2tKUQC")
                "4uLU6hMCjMI75M1A2tKUQC" Hnd) as (_ & Hc & _ & _); [simpl; tauto|].
    apply Hc; reflexivity.
Defined.

(** ** The loop over [none], entry by entry *)

(** What the body of the loop decides for an id that has no copy yet. *)
Inductive verdict : Type :=
| IsMissing
| IsUnsure
| CopyWith (track artist : string)
| Fails (e : exn).

Section Verdicts.

Context {env : Env}.
Variable history : list history_row.
Variable endsong : list endsong_row.

Definition verdict_of (entry : Z) : verdict :=
  match filter (has_id entry) endsong with
  | [] => Fails TypeError
  | row :: _ =>
      let matches := duration_matches history (ms_played row) in
      match matches with
      | [] => IsMissing
      | first :: _ =>
          let options := set_order _ pair_dec matches in
          if Nat.ltb 1 (List.length options) then
            let x := input (ts row) options in
            if String.eqb x "U" || String.eqb x "u" then IsUnsure
            else match parse_int x with
                 | None => Fails ValueError
                 | Some j =>
                     match py_index options j with
                     | None => Fails IndexError
                     | Some choice => CopyWith (snd choice) (fst choice)
                     end
                 end
          else CopyWith (snd first) (fst first)
      end
  end.

Definition apply_verdict (entry : Z) (v : verdict) (st : state) : result state :=
  match v with
  | IsMissing => Ok (add_missing entry st)
  | IsUnsure => Ok (add_unsure entry st)
  | CopyWith track artist => Ok (copy_row endsong entry track artist st)
  | Fails e => Raise e
  end.

Lemma fix_none_entry_verdict st entry :
  fix_none_entry history endsong st entry
  = if Nat.eqb (count_id entry (endsong_modified st)) 0
    then apply_verdict entry (verdict_of entry) st
    else Ok st.
Proof.
  unfold fix_none_entry, verdict_of.
  destruct (Nat.eqb (count_id entry (endsong_modified st)) 0); [|reflexivity].
  destruct (filter (has_id entry) endsong) as [|row l]; [reflexivity|].
  cbv zeta.
  destruct (duration_matches history (ms_played row)) as [|first ms]; [reflexivity|].
  destruct (Nat.ltb 1 _); [|reflexivity].
  destruct (String.eqb _ "U" || String.eqb _ "u"); [reflexivity|].
  destruct (parse_int _) as [j|]; [|reflexivity].
  now destruct (py_index _ j).
Qed.

Lemma fix_none_entry_cases st entry st' :
  fix_none_entry history endsong st entry = Ok st' ->
  (count_id entry (endsong_modified st) <> 0 /\ st' = st)
  \/ (count_id entry (endsong_modified st) = 0
      /\ (st' = add_missing entry st
          \/ st' = add_unsure entry st
          \/ exists t a, filter (has_id entry) endsong <> []
                         /\ st' = copy_row endsong entry t a st)).
Proof.
  rewrite fix_none_entry_verdict.
  destruct (Nat.eqb (count_id entry (endsong_modified st)) 0) eqn:E.
  - apply Nat.eqb_eq in E. intros H. right. split; [assumption|].
    unfold verdict_of in H.
    destruct (filter (has_id entry) endsong) as [|row l] eqn:F; [discriminate|].
    destruct (verdict_of entry) eqn:V; unfold verdict_of in V; rewrite F in V;
      rewrite V in H; simpl in H; try discriminate; injection H as <-; auto.
    right. right. exists track, artist. split; [discriminate | reflexivity].
  - apply Nat.eqb_neq in E. intros H. injection H as <-. now left.
Qed.

End Verdicts.

(** ** What the three loops can touch *)

Section ResolveFacts.

Context {env : Env}.
Variable history : list history_row.
Variable endsong : list endsong_row.

(** The id of a row of [endsong] on platform ios. *)
Definition ios_id (p : Z) : Prop :=
  exists row, In row endsong /\ is_ios row = true /\ e_id row = p.

(** A copy of a row of [endsong] on platform ios with two new names. *)
Definition repaired (r' : endsong_row) : Prop :=
  exists row t a, In row endsong /\ is_ios row = true /\ r' = set_names t a row.

Definition grows (m m' : list endsong_row) : Prop :=
  exists new, m' = m ++ new /\ Forall repaired new.

Lemma grows_refl m : grows m m.
Proof. exists []. split; [now rewrite app_nil_r | constructor]. Qed.

Lemma grows_trans m1 m2 m3 : grows m1 m2 -> grows m2 m3 -> grows m1 m3.
Proof.
  intros (n1 & -> & H1) (n2 & -> & H2). exists (n1 ++ n2).
  split; [now rewrite app_assoc | now apply Forall_app].
Qed.

Lemma single_attempts_ios rows a :
  (forall r, In r rows -> In r endsong /\ is_ios r = true) ->
  In a (single_attempts history rows) -> ios_id (attempt_id a).
Proof.
  intros Hrows Ha. unfold single_attempts in Ha. apply in_flat_map in Ha as (row & Hrow & Ha).
  destruct (exact_matches history row) as [|h [|h' l]]; try contradiction.
  destruct Ha as [<-|[]]. destruct (Hrows row Hrow) as [Hin Hios].
  now exists row.
Qed.

Lemma cluster_attempts_ios c a :
  In a (cluster_attempts history endsong c) -> ios_id (attempt_id a).
Proof.
  unfold cluster_attempts. destruct (cluster_history history c) as [|h0 rest]; [contradiction|].
  intros Ha. apply in_map_iff in Ha as ([h e] & <- & Hhe).
  apply in_combine_r in Hhe.
  apply (Permutation_in _ (cluster_endsong_perm endsong h0)) in Hhe.
  apply filter_In in Hhe as [Hin Hc].
  apply andb_true_iff in Hc as [Hc _]. apply andb_true_iff in Hc as [Hios _].
  now exists e.
Qed.

Lemma plan_ios a : In a (plan history endsong) -> ios_id (attempt_id a).
Proof.
  unfold plan. intros Ha. apply in_app_or in Ha as [Ha|Ha].
  - apply (single_attempts_ios (filter is_ios endsong)); [|assumption].
    intros r Hr. now apply filter_In in Hr.
  - apply in_flat_map in Ha as (c & _ & Ha). now apply cluster_attempts_ios in Ha.
Qed.

Lemma all_none_spec p :
  In p (all_none history endsong) <->
  exists row, In row endsong /\ is_ios row = true /\ e_id row = p
              /\ exact_matches history row = [].
Proof.
  unfold all_none. rewrite in_map_iff. split.
  - intros (row & Hid & Hin). apply filter_In in Hin as [Hin Hno].
    apply filter_In in Hin as [Hin Hios]. exists row. repeat split; try assumption.
    unfold no_match in Hno. now destruct (exact_matches history row).
  - intros (row & Hin & Hios & Hid & Hm). exists row. split; [assumption|].
    apply filter_In. split; [apply filter_In; now split|].
    unfold no_match. now rewrite Hm.
Qed.

Lemma all_none_ios p : In p (all_none history endsong) -> ios_id p.
Proof. intros H. apply all_none_spec in H as (row & ? & ? & ? & _). now exists row. Qed.

Hypothesis endsong_key : NoDup (map e_id endsong).

Lemma insert_and_update_grows p t a m :
  ios_id p -> count_id p m = 0 -> grows m (insert_and_update endsong p t a m).
Proof.
  intros (row & Hin & Hios & <-) Hc.
  rewrite insert_and_update_absent by now apply count_id_zero.
  rewrite (filter_id_unique endsong row endsong_key Hin).
  exists [set_names t a row]. split; [reflexivity|].
  constructor; [|constructor]. now exists row, t, a.
Qed.

Lemma try_copy_grows st a :
  ios_id (attempt_id a) ->
  grows (endsong_modified st) (endsong_modified (try_copy endsong st a)).
Proof.
  intros Hios. unfold try_copy, copy_if_absent.
  destruct (Nat.eqb (count_id (attempt_id a) (endsong_modified st)) 0) eqn:E.
  - apply Nat.eqb_eq in E. simpl. now apply insert_and_update_grows.
  - apply grows_refl.
Qed.

Lemma try_copy_all_grows acts st :
  (forall a, In a acts -> ios_id (attempt_id a)) ->
  grows (endsong_modified st) (endsong_modified (fold_left (try_copy endsong) acts st)).
Proof.
  revert st. induction acts as [|a acts IH]; intros st H; simpl; [apply grows_refl|].
  eapply grows_trans; [apply try_copy_grows; apply H; now left|].
  apply IH. intros; apply H; now right.
Qed.

(** One pass of the loop over [none]: the table grows by copies of ios
    rows, and the two reports grow by entries of the loop. *)
Lemma fix_none_entries_grow entries st st' :
  (forall p, In p entries -> ios_id p) ->
  for_each (fix_none_entry history endsong) entries st = Ok st' ->
  grows (endsong_modified st) (endsong_modified st')
  /\ (forall p, In p (missing st') -> In p (missing st) \/ In p entries)
  /\ (forall p, In p (unsure st') -> In p (unsure st) \/ In p entries).
Proof.
  revert st. induction entries as [|e entries IH]; intros st Hios H.
  - injection H as <-. split; [apply grows_refl | auto].
  - cbn [for_each] in H.
    destruct (fix_none_entry history endsong st e) as [st1|] eqn:E1; [|discriminate].
    cbn [bind] in H.
    destruct (IH st1 (fun p Hp => Hios p (or_intror Hp)) H) as (Hg & Hm & Hu).
    apply fix_none_entry_cases in E1
      as [[_ ->]|[Hc [->|[->|(t & a & _ & ->)]]]].
    + split; [assumption|]. split; intros p Hp; [destruct (Hm p Hp) | destruct (Hu p Hp)];
        simpl; auto.
    + split; [assumption|]. split; intros p Hp.
      * destruct (Hm p Hp) as [Hx|Hx]; [|simpl; auto].
        simpl in Hx. apply in_app_or in Hx as [Hx|[<-|[]]]; simpl; auto.
      * destruct (Hu p Hp); simpl; auto.
    + split; [assumption|]. split; intros p Hp.
      * destruct (Hm p Hp); simpl; auto.
      * destruct (Hu p Hp) as [Hx|Hx]; [|simpl; auto].
        simpl in Hx. apply in_app_or in Hx as [Hx|[<-|[]]]; simpl; auto.
    + split.
      * eapply grows_trans; [|exact Hg]. simpl.
        apply insert_and_update_grows; [apply Hios; now left | assumption].
      * split; intros p Hp; [destruct (Hm p Hp) | destruct (Hu p Hp)]; simpl; auto.
Qed.

End ResolveFacts.

(** C6, as stated, fails: a row on platform ios that has both names is
    matched like any other ios row, and its copy gets the names of the
    [history] row. *)
Lemma named_ios_row_counterexample :
  @resolve Sample.env
    [mkHistory "2022-01-01 10:15" "Y" "X" 180000 "StreamingHistory0.json" 0]
    [mkEndsong "2022-01-01T10:15:32Z" "ios" 180000 (Some "Old track") (Some "Old artist")
       (Some "Old album") (Some "spotify:track:0000000000000000000002") 0 no_aux 1]
    []
  = Ok (mkState
          [mkEndsong "2022-01-01T10:15:32Z" "ios" 180000 (Some "X") (Some "Y")
             (Some "Old album") (Some "spotify:track:0000000000000000000002") 0 no_aux 1]
          [] [] [] [] 1).
Proof. reflexivity. Qed.

(** C6 (amended).  What decides whether a row of [endsong] is matched is
    its platform alone: after the three loops the table holds what it held
    before, followed by copies of rows on platform ios with new names, and
    the ids in the two reports are ids of rows on platform ios, whether or
    not those rows had names.  This is so as long as no [endTime] holds a
    single quote: line 174 writes the [endTime] into the text of its query,
    and with a single quote in it the text can be a query that selects
    rows of other platforms. *)
Theorem only_ios_rows_are_matched (env : Env) (history : list history_row)
    (endsong m : list endsong_row) (st : state) :
  NoDup (map e_id endsong) ->
  (forall h, In h history -> quote_free (endTime h) = true) ->
  resolve history endsong m = Ok st ->
  (exists new,
      endsong_modified st = m ++ new
      /\ forall r', In r' new ->
           exists row track artist,
             In row endsong /\ platform row = "ios"
             /\ r' = mkEndsong (ts row) (platform row) (ms_played row)
                       (Some track) (Some artist)
                       (master_metadata_album_album_name row) (spotify_track_uri row)
                       (offline_timestamp row) (aux row) (e_id row))
  /\ (forall p, In p (missing st) \/ In p (unsure st) ->
        exists row, In row endsong /\ platform row = "ios" /\ e_id row = p).
Proof.
  intros Hkey _ Hres. apply resolve_ok in Hres.
  assert (Hio : forall p, In p (set_order Z Z.eq_dec (all_none history endsong)) ->
                          ios_id endsong p)
    by (intros p Hp; apply set_order_In in Hp; now apply all_none_ios in Hp).
  destruct (fix_none_entries_grow history endsong Hkey _ _ _ Hio Hres) as (Hg & Hm & Hu).
  assert (Hg0 : grows endsong m (endsong_modified (after_copies history endsong m))).
  { unfold after_copies. cbn [with_sets endsong_modified].
    apply (try_copy_all_grows endsong Hkey (plan history endsong) (mkState m [] [] [] [] 0)).
    intros a Ha. now apply plan_ios in Ha. }
  destruct (grows_trans _ _ _ _ Hg0 Hg) as (new & Hnew & Hall).
  split.
  - exists new. split; [assumption|]. intros r' Hr'.
    rewrite Forall_forall in Hall. destruct (Hall r' Hr') as (row & t & a & Hin & Hios & ->).
    exists row, t, a. repeat split; [assumption|]. now apply String.eqb_eq.
  - assert (Hmi : missing (after_copies history endsong m) = []
                  /\ unsure (after_copies history endsong m) = []).
    { unfold after_copies. cbn [with_sets missing unsure].
      destruct (try_copy_all_sets endsong (plan history endsong) (mkState m [] [] [] [] 0))
        as (_ & _ & -> & ->). now split. }
    destruct Hmi as [Hmi Hun].
    intros p [Hp|Hp].
    + destruct (Hm p Hp) as [Hx|Hx]; [rewrite Hmi in Hx; contradiction|].
      destruct (Hio p Hx) as (row & Hin & Hios & Hid). exists row.
      repeat split; try assumption. now apply String.eqb_eq.
    + destruct (Hu p Hp) as [Hx|Hx]; [rewrite Hun in Hx; contradiction|].
      destruct (Hio p Hx) as (row & Hin & Hios & Hid). exists row.
      repeat split; try assumption. now apply String.eqb_eq.
Qed.

Lemma only_ios_rows_are_matched_witness :
  NoDup (map e_id Sample.endsong)
  /\ exists st,
       @resolve Sample.env Sample.history Sample.endsong [] = Ok st
       /\ forall p, In p (missing st) \/ In p (unsure st) ->
            exists row, In row Sample.endsong /\ platform row = "ios" /\ e_id row = p.
Proof.
  split; [exact SampleFacts.endsong_key|].
  destruct (@resolve Sample.env Sample.history Sample.endsong []) as [st|e] eqn:E;
    [|vm_compute in E; discriminate].
  exists st. split; [reflexivity|].
  apply (only_ios_rows_are_matched Sample.env Sample.history Sample.endsong [] st
           SampleFacts.endsong_key SampleFacts.history_quote_free E).
Defined.

(** ** Ids in the table and in the reports *)

Section Coverage.

Context {env : Env}.
Variable history : list history_row.
Variable endsong : list endsong_row.

Lemma ids_insert_and_update p t a m :
  map e_id (insert_and_update endsong p t a m)
  = map e_id m ++ map e_id (filter (has_id p) endsong).
Proof.
  unfold insert_and_update. rewrite update_where_ids by reflexivity. apply map_app.
Qed.

Lemma ids_insert_and_update_inv p q t a m :
  In q (map e_id (insert_and_update endsong p t a m)) -> In q (map e_id m) \/ q = p.
Proof.
  rewrite ids_insert_and_update. intros H. apply in_app_or in H as [H|H]; [now left|].
  right. apply in_map_iff in H as (r & <- & Hr). apply filter_In in Hr as [_ Hr].
  now apply has_id_true in Hr.
Qed.

Lemma ids_try_copy_mono st a q :
  In q (map e_id (endsong_modified st)) ->
  In q (map e_id (endsong_modified (try_copy endsong st a))).
Proof.
  intros H. unfold try_copy, copy_if_absent.
  destruct (Nat.eqb _ 0); [|assumption].
  simpl. rewrite ids_insert_and_update. apply in_or_app. now left.
Qed.

Lemma ids_try_copy_all_mono acts st q :
  In q (map e_id (endsong_modified st)) ->
  In q (map e_id (endsong_modified (fold_left (try_copy endsong) acts st))).
Proof.
  revert st. induction acts as [|a acts IH]; intros st H; simpl; [assumption|].
  apply IH. now apply ids_try_copy_mono.
Qed.

(** After a guarded copy the id is in the table, when [endsong] has it. *)
Lemma try_copy_present st a :
  In (attempt_id a) (map e_id endsong) ->
  In (attempt_id a) (map e_id (endsong_modified (try_copy endsong st a))).
Proof.
  intros Hin. unfold try_copy, copy_if_absent.
  destruct (Nat.eqb (count_id (attempt_id a) (endsong_modified st)) 0) eqn:E.
  - simpl. rewrite ids_insert_and_update. apply in_or_app. right.
    apply in_map_iff in Hin as (r & Hid & Hr). apply in_map_iff. exists r.
    split; [assumption|]. apply filter_In. split; [assumption | now apply has_id_true].
  - apply Nat.eqb_neq in E. destruct (in_dec Z.eq_dec (attempt_id a) (map e_id (endsong_modified st)))
      as [H|H]; [assumption|]. apply count_id_zero in H. contradiction.
Qed.

Lemma try_copy_all_present acts st a :
  In a acts -> In (attempt_id a) (map e_id endsong) ->
  In (attempt_id a) (map e_id (endsong_modified (fold_left (try_copy endsong) acts st))).
Proof.
  revert st. induction acts as [|b acts IH]; intros st Ha Hin; [contradiction|].
  simpl. destruct Ha as [->|Ha].
  - apply ids_try_copy_all_mono. now apply try_copy_present.
  - now apply IH.
Qed.


Lemma fix_none_entries_mono entries st st' :
  for_each (fix_none_entry history endsong) entries st = Ok st' ->
  forall q, (In q (map e_id (endsong_modified st)) -> In q (map e_id (endsong_modified st')))
            /\ (In q (missing st) -> In q (missing st'))
            /\ (In q (unsure st) -> In q (unsure st')).
Proof.
  revert st. induction entries as [|e entries IH]; intros st H q.
  - injection H as <-. auto.
  - cbn [for_each] in H.
    destruct (fix_none_entry history endsong st e) as [st1|] eqn:E1; [|discriminate].
    cbn [bind] in H. destruct (IH st1 H q) as (Hi & Hm & Hu).
    apply fix_none_entry_cases in E1 as [[_ ->]|[Hc [->|[->|(t & a & _ & ->)]]]];
      simpl in *; repeat split; intros Hq; auto.
    + apply Hm. apply in_or_app. now left.
    + apply Hu. apply in_or_app. now left.
    + apply Hi. rewrite ids_insert_and_update. apply in_or_app. now left.
Qed.

(** Every entry of the loop ends with a copy or in one of the reports. *)
Lemma fix_none_entries_cover entries st st' p :
  In p entries ->
  for_each (fix_none_entry history endsong) entries st = Ok st' ->
  In p (map e_id (endsong_modified st')) \/ In p (missing st') \/ In p (unsure st').
Proof.
  revert st. induction entries as [|e entries IH]; intros st Hp H; [contradiction|].
  cbn [for_each] in H.
  destruct (fix_none_entry history endsong st e) as [st1|] eqn:E1; [|discriminate].
  cbn [bind] in H. destruct Hp as [->|Hp]; [|now apply (IH st1)].
  destruct (fix_none_entries_mono entries st1 st' H p) as (Hi & Hm & Hu).
  apply fix_none_entry_cases in E1 as [[Hc ->]|[Hc [->|[->|(t & a & Hne & ->)]]]].
  - left. apply Hi.
    destruct (in_dec Z.eq_dec p (map e_id (endsong_modified st))) as [Hin|Hn]; [assumption|].
    apply count_id_zero in Hn. contradiction.
  - right. left. apply Hm. simpl. apply in_or_app. right. now left.
  - right. right. apply Hu. simpl. apply in_or_app. right. now left.
  - left. apply Hi. simpl. rewrite ids_insert_and_update. apply in_or_app. right.
    destruct (filter (has_id p) endsong) as [|r l] eqn:F; [contradiction|].
    assert (Hr : In r (filter (has_id p) endsong)) by (rewrite F; now left).
    apply filter_In in Hr as [_ Hr]. apply has_id_true in Hr. simpl. now left.
Qed.

(** An id that was put into a report has no copy and is in no other
    report. *)
Definition reports_apart (st : state) (later : list Z) : Prop :=
  forall p,
    (In p (missing st) ->
     ~ In p later /\ ~ In p (unsure st) /\ ~ In p (map e_id (endsong_modified st)))
    /\ (In p (unsure st) ->
        ~ In p later /\ ~ In p (map e_id (endsong_modified st))).

Lemma fix_none_entries_apart entries st st' :
  NoDup entries -> reports_apart st entries ->
  for_each (fix_none_entry history endsong) entries st = Ok st' ->
  reports_apart st' [].
Proof.
  revert st. induction entries as [|e entries IH]; intros st Hnd Hinv H.
  - injection H as <-. exact Hinv.
  - cbn [for_each] in H.
    destruct (fix_none_entry history endsong st e) as [st1|] eqn:E1; [|discriminate].
    cbn [bind] in H. inversion Hnd as [|? ? He Hnd']; subst.
    apply (IH st1 Hnd'); [|assumption]. clear IH H.
    apply fix_none_entry_cases in E1 as [[_ ->]|[Hc [->|[->|(t & a & _ & ->)]]]].
    + intros p. destruct (Hinv p) as [Hm Hu]. split; intros Hp.
      * destruct (Hm Hp) as (H1 & H2 & H3). repeat split; auto.
        intros Hx. apply H1. now right.
      * destruct (Hu Hp) as (H1 & H2). split; auto. intros Hx. apply H1. now right.
    + apply count_id_zero in Hc.
      intros p. destruct (Hinv p) as [Hm Hu]. simpl. split; intros Hp.
      * apply in_app_or in Hp as [Hp|[<-|[]]].
        -- destruct (Hm Hp) as (H1 & H2 & H3). repeat split; auto.
           intros Hx. apply H1. now right.
        -- repeat split; auto. intros Hx. destruct (Hinv e) as [_ Hu'].
           destruct (Hu' Hx) as [H1 _]. apply H1. now left.
      * destruct (Hu Hp) as (H1 & H2). split; auto. intros Hx. apply H1. now right.
    + apply count_id_zero in Hc.
      intros p. destruct (Hinv p) as [Hm Hu]. simpl. split; intros Hp.
      * destruct (Hm Hp) as (H1 & H2 & H3). repeat split; auto.
        -- intros Hx. apply H1. now right.
        -- intros Hx. apply in_app_or in Hx as [Hx|[<-|[]]]; [now apply H2|].
           apply H1. now left.
      * apply in_app_or in Hp as [Hp|[<-|[]]].
        -- destruct (Hu Hp) as (H1 & H2). split; auto. intros Hx. apply H1. now right.
        -- split; auto.
    + intros p. destruct (Hinv p) as [Hm Hu]. simpl. split; intros Hp.
      * destruct (Hm Hp) as (H1 & H2 & H3). repeat split; auto.
        -- intros Hx. apply H1. now right.
        -- intros Hx. apply ids_insert_and_update_inv in Hx as [Hx| ->]; [now apply H3|].
           apply H1. now left.
      * destruct (Hu Hp) as (H1 & H2). split.
        -- intros Hx. apply H1. now right.
        -- intros Hx. apply ids_insert_and_update_inv in Hx as [Hx| ->]; [now apply H2|].
           apply H1. now left.
Qed.

End Coverage.

(** ** What the later passes keep *)

(** The id and the two names of a row: no pass after the three loops
    changes them. *)
Definition id_names (r : endsong_row) : Z * key := (e_id r, names_of r).

Definition keeps_names (f : endsong_row -> endsong_row) : Prop :=
  forall r, id_names (f r) = id_names r.

Lemma keeps_set_track_data al u : keeps_names (set_track_data al u).
Proof. intros r. reflexivity. Qed.

Lemma keeps_set_uri u : keeps_names (set_uri u).
Proof. intros r. reflexivity. Qed.

Lemma id_names_update_where cond f m :
  keeps_names f -> map id_names (update_where cond f m) = map id_names m.
Proof.
  intros H. unfold update_where. rewrite map_map. apply map_ext.
  intros r. destruct (cond r); [apply H | reflexivity].
Qed.

Lemma is_unknown_id_names r r' : id_names r = id_names r' -> is_unknown r = is_unknown r'.
Proof.
  unfold id_names, names_of, is_unknown. intros H. injection H as _ -> ->. reflexivity.
Qed.

Section Finish.

Context {env : Env}.
Variable endsong : list endsong_row.

Lemma id_names_add_track_data_from sel acc :
  map id_names (fst (fold_left (add_track_data_row endsong) sel acc))
  = map id_names (fst acc).
Proof.
  revert acc. induction sel as [|x sel IH]; intros acc; simpl; [reflexivity|].
  rewrite IH. unfold add_track_data_row.
  destruct (track_data endsong (fst x)) as [|d l]; [reflexivity|].
  simpl. apply id_names_update_where, keeps_set_track_data.
Qed.

Lemma id_names_add_track_data m :
  map id_names (fst (add_track_data endsong m)) = map id_names m.
Proof. unfold add_track_data. now rewrite id_names_add_track_data_from. Qed.

Lemma id_names_manual_entry_from work acc acc' :
  for_each manual_entry_row work acc = Ok acc' ->
  map id_names (fst acc') = map id_names (fst acc).
Proof.
  revert acc. induction work as [|kv work IH]; intros acc H.
  - now injection H as <-.
  - cbn [for_each] in H.
    destruct (manual_entry_row acc kv) as [acc1|] eqn:E; [|discriminate].
    cbn [bind] in H. rewrite (IH acc1 H).
    unfold manual_entry_row in E.
    destruct (search (fst kv)); try discriminate; injection E as <-; try reflexivity.
    simpl. apply id_names_update_where, keeps_set_track_data.
Qed.

Lemma id_names_fix_pass fixed sel m :
  map id_names (fold_left (fix_uri fixed) sel m) = map id_names m.
Proof.
  revert m. induction sel as [|x sel IH]; intros m; simpl; [reflexivity|].
  rewrite IH. apply id_names_update_where, keeps_set_uri.
Qed.

Lemma id_names_fix_uris m :
  map id_names (fix_uris_2 (fix_uris_1 m)) = map id_names m.
Proof. unfold fix_uris_2, fix_uris_1. now rewrite !id_names_fix_pass. Qed.

(** What [finish] returns, stage by stage. *)
Lemma finish_inv st out :
  finish endsong st = Ok out ->
  exists m1 no_extra no_extra' m2 skipped_ids,
    add_track_data endsong (endsong_modified st) = (m1, no_extra)
    /\ dict_del key_eqb unknown_key no_extra = Ok no_extra'
    /\ manual_entry m1 no_extra' = Ok (m2, skipped_ids)
    /\ out = mkOutcome (delete_unknown (fix_uris_2 (fix_uris_1 m2))) (updated st)
               (set_order _ Z.eq_dec (missing st)) (set_order _ Z.eq_dec (unsure st))
               (map fst skipped_ids).
Proof.
  unfold finish. destruct (add_track_data endsong (endsong_modified st)) as [m1 no_extra].
  destruct (dict_del key_eqb unknown_key no_extra) as [no_extra'|] eqn:D; [|discriminate].
  cbn [bind]. destruct (manual_entry m1 no_extra') as [[m2 sk]|] eqn:M; [|discriminate].
  cbn [bind fst snd]. intros H. injection H as <-.
  now exists m1, no_extra, no_extra', m2, sk.
Qed.

Lemma delete_unknown_In r m : In r (delete_unknown m) <-> In r m /\ is_unknown r = false.
Proof. unfold delete_unknown. rewrite filter_In, negb_true_iff. tauto. Qed.

(** The rows that a run writes out are the rows that the three loops left
    in the table, without those named Unknown Track by Unknown Artist; the
    reports hold the members of the two sets. *)
Lemma finish_ids st out p :
  finish endsong st = Ok out ->
  (In p (map e_id (out_modified out)) <->
   exists r, In r (endsong_modified st) /\ e_id r = p /\ is_unknown r = false)
  /\ (In p (out_missing out) <-> In p (missing st))
  /\ (In p (out_unsure out) <-> In p (unsure st)).
Proof.
  intros H. apply finish_inv in H as (m1 & ne & ne' & m2 & sk & Ha & _ & Hm & ->).
  cbn [out_modified out_missing out_unsure].
  split; [|split; apply set_order_In].
  assert (Hsame : map id_names (fix_uris_2 (fix_uris_1 m2)) = map id_names (endsong_modified st)).
  { rewrite id_names_fix_uris.
    unfold manual_entry in Hm. apply id_names_manual_entry_from in Hm. cbn [fst] in Hm.
    rewrite Hm. replace m1 with (fst (add_track_data endsong (endsong_modified st)))
      by now rewrite Ha.
    apply id_names_add_track_data. }
  split.
  - intros Hin. apply in_map_iff in Hin as (r & Hid & Hr).
    apply delete_unknown_In in Hr as [Hr Hu].
    assert (Hx : In (id_names r) (map id_names (endsong_modified st)))
      by (rewrite <- Hsame; now apply in_map).
    apply in_map_iff in Hx as (r0 & Heq & Hr0). exists r0.
    split; [assumption|]. split.
    + unfold id_names in Heq. injection Heq as -> _. assumption.
    + now rewrite (is_unknown_id_names _ _ Heq).
  - intros (r & Hr & Hid & Hu).
    assert (Hx : In (id_names r) (map id_names (fix_uris_2 (fix_uris_1 m2))))
      by (rewrite Hsame; now apply in_map).
    apply in_map_iff in Hx as (r1 & Heq & Hr1).
    apply in_map_iff. exists r1. split.
    + unfold id_names in Heq. injection Heq as -> _. assumption.
    + apply delete_unknown_In. split; [assumption|].
      now rewrite (is_unknown_id_names _ _ Heq).
Qed.

End Finish.

(** ** C7: the rows that a cluster does not reach *)




(** ** C5: where the ios rows end *)

(** C5, as stated, fails.  The run on the sample writes out copies of the
    rows 10, 15, 16 and 12 and reports row 13 as missing.  Row 14, which its
    cluster does not reach, and row 11, whose copy was named Unknown Track by
    Unknown Artist and deleted, are ios rows of [endsong] that are neither
    written out nor in a report. *)
Lemma coverage_counterexample :
  exists out,
    @run Sample.env Sample.history Sample.endsong [] = Ok out
    /\ map e_id (out_modified out) = [10; 15; 16; 12]%Z
    /\ out_missing out = [13]%Z
    /\ out_unsure out = []
    /\ In (broken "2022-01-05T12:30:10Z" 200000 30 14) Sample.endsong
    /\ In (broken "2022-01-01T10:16:05Z" 5000 0 11) Sample.endsong.
Proof.
  eexists. split; [vm_compute; reflexivity|].
  repeat split; simpl; tauto.
Qed.

Lemma single_attempt_in_plan {env : Env} history endsong row h :
  In row endsong -> is_ios row = true -> exact_matches history row = [h] ->
  In (e_id row, trackName h, artistName h) (plan history endsong).
Proof.
  intros Hin Hios Hm. unfold plan. apply in_or_app. left.
  unfold single_attempts. apply in_flat_map. exists row.
  split; [apply filter_In; now split|]. rewrite Hm. now left.
Qed.

(** C5 (amended).  After a complete run a row of [endsong] on platform ios
    is in at most one of the three: written out, reported missing, reported
    unsure.  A row with at most one exact match is in one of them, unless the
    three loops gave its copy the names Unknown Track and Unknown Artist, in
    which case the copy is deleted before the table is written out. *)
Theorem ios_rows_end_in_at_most_one_place (env : Env) (history : list history_row)
    (endsong m : list endsong_row) (st : state) (out : outcome) (row : endsong_row) :
  resolve history endsong m = Ok st ->
  finish endsong st = Ok out ->
  In row endsong -> is_ios row = true ->
  let p := e_id row in
  run history endsong m = Ok out
  /\ (In p (out_missing out) ->
      ~ In p (out_unsure out) /\ ~ In p (map e_id (out_modified out)))
  /\ (In p (out_unsure out) -> ~ In p (map e_id (out_modified out)))
  /\ (List.length (exact_matches history row) <= 1 ->
      In p (map e_id (out_modified out)) \/ In p (out_missing out) \/ In p (out_unsure out)
      \/ exists r, In r (endsong_modified st) /\ e_id r = p /\ is_unknown r = true).
Proof.
  intros Hres Hfin Hrow Hios p.
  split; [unfold run; rewrite Hres; exact Hfin|].
  destruct (finish_ids endsong st out p Hfin) as (Hout & Hmis & Huns).
  apply resolve_ok in Hres.
  assert (Hmi : missing (after_copies history endsong m) = []
                /\ unsure (after_copies history endsong m) = []).
  { unfold after_copies. cbn [with_sets missing unsure].
    destruct (try_copy_all_sets endsong (plan history endsong) (mkState m [] [] [] [] 0))
      as (_ & _ & -> & ->). now split. }
  destruct Hmi as [Hmi Hun].
  assert (Hap : reports_apart st []).
  { apply (fix_none_entries_apart history endsong _ _ _ (set_order_NoDup _ _ _)) in Hres;
      [assumption|].
    intros q. rewrite Hmi, Hun. split; contradiction. }
  destruct (Hap p) as [Hm Hu].
  split.
  { intros Hp. apply Hmis in Hp. destruct (Hm Hp) as (_ & H2 & H3). split.
    - intros Hx. now apply Huns in Hx.
    - intros Hx. apply Hout in Hx as (r & Hr & Hid & _).
      apply H3, in_map_iff. now exists r. }
  split.
  { intros Hp. apply Huns in Hp. destruct (Hu Hp) as (_ & H3).
    intros Hx. apply Hout in Hx as (r & Hr & Hid & _).
    apply H3, in_map_iff. now exists r. }
  intros Hlen.
  assert (Hcov : In p (map e_id (endsong_modified st)) \/ In p (missing st) \/ In p (unsure st)).
  { destruct (exact_matches history row) as [|h [|h' l]] eqn:E.
    - apply (fix_none_entries_cover history endsong _ _ _ p) in Hres; [assumption|].
      apply set_order_In. apply all_none_spec. now exists row.
    - left. destruct (fix_none_entries_mono history endsong _ _ _ Hres p) as (Hi & _).
      apply Hi. unfold after_copies. cbn [with_sets endsong_modified].
      refine (try_copy_all_present endsong (plan history endsong) _
                (e_id row, trackName h, artistName h) _ _).
      + now apply single_attempt_in_plan.
      + cbn [attempt_id fst]. now apply in_map.
    - simpl in Hlen. lia. }
  destruct Hcov as [Hc|[Hc|Hc]].
  - apply in_map_iff in Hc as (r & Hid & Hr).
    destruct (is_unknown r) eqn:U.
    + right. right. right. now exists r.
    + left. apply Hout. now exists r.
  - right. left. now apply Hmis.
  - right. right. left. now apply Huns.
Qed.

Lemma ios_rows_end_in_at_most_one_place_witness :
  In (broken "2022-02-02T08:00:00Z" 77 0 13) Sample.endsong
  /\ exists st out,
       @resolve Sample.env Sample.history Sample.endsong [] = Ok st
       /\ @finish Sample.env Sample.endsong st = Ok out
       /\ (In 13%Z (out_missing out) ->
           ~ In 13%Z (out_unsure out) /\ ~ In 13%Z (map e_id (out_modified out))).
Proof.
  split; [simpl; tauto|].
  destruct (@resolve Sample.env Sample.history Sample.endsong []) as [st|] eqn:E;
    [|vm_compute in E; discriminate].
  destruct (@finish Sample.env Sample.endsong st) as [out|] eqn:F.
  - exists st, out. split; [reflexivity|]. split; [exact F|].
    destruct (ios_rows_end_in_at_most_one_place Sample.env Sample.history Sample.endsong []
                st out (broken "2022-02-02T08:00:00Z" 77 0 13) E F)
      as (_ & H & _); [simpl; tauto | reflexivity | exact H].
  - exfalso. vm_compute in E. injection E as <-. vm_compute in F. discriminate.
Defined.

(** ** Dictionaries and the order of timestamps *)

Lemma eqb_null_eq a b : eqb_null a b = true <-> a = b.
Proof.
  destruct a as [x|], b as [y|]; simpl; split; intros H; try discriminate; try reflexivity.
  - apply String.eqb_eq in H. now subst.
  - injection H as ->. apply String.eqb_refl.
Qed.

Lemma key_eqb_eq a b : key_eqb a b = true <-> a = b.
Proof.
  unfold key_eqb. rewrite andb_true_iff, !eqb_null_eq.
  destruct a, b; simpl; split; [intros [-> ->]; reflexivity | intros H; now injection H].
Qed.

Lemma key_eqb_neq a b : key_eqb a b = false <-> a <> b.
Proof.
  split.
  - intros H Heq. apply key_eqb_eq in Heq. congruence.
  - intros H. destruct (key_eqb a b) eqn:E; [|reflexivity]. apply key_eqb_eq in E. contradiction.
Qed.

Lemma dict_set_keys {V} (k k' : key) (v : V) d :
  In k (map fst (dict_set key_eqb k' v d)) <-> k = k' \/ In k (map fst d).
Proof.
  induction d as [|[k0 v0] d IH]; simpl.
  - split; [intros [H|[]]; now left | intros [H|[]]; now left].
  - destruct (key_eqb k0 k') eqn:E; simpl.
    + apply key_eqb_eq in E. subst. intuition congruence.
    + rewrite IH. intuition congruence.
Qed.

Lemma dict_mem_keys {V} (k : key) (d : list (key * V)) :
  dict_mem key_eqb k d = true <-> In k (map fst d).
Proof.
  induction d as [|[k0 v0] d IH]; simpl; [split; [discriminate | contradiction]|].
  rewrite orb_true_iff, IH, key_eqb_eq. tauto.
Qed.


Lemma string_leb_refl s : String.leb s s = true.
Proof. destruct (String.leb_total s s); assumption. Qed.

Lemma string_compare_lt_trans a b c :
  String.compare a b = Lt -> String.compare b c = Lt -> String.compare a c = Lt.
Proof.
  revert b c. induction a as [|x a IH]; intros [|y b] [|z c]; simpl; try congruence.
  unfold Ascii.compare.
  destruct (N.compare_spec (N_of_ascii x) (N_of_ascii y)) as [Hxy|Hxy|Hxy];
    destruct (N.compare_spec (N_of_ascii y) (N_of_ascii z)) as [Hyz|Hyz|Hyz];
    try congruence; intros H1 H2.
  - rewrite Hxy, Hyz, N.compare_refl. now apply (IH b c).
  - rewrite Hxy. now apply N.compare_lt_iff in Hyz as ->.
  - rewrite <- Hyz. now apply N.compare_lt_iff in Hxy as ->.
  - assert (H : (N_of_ascii x < N_of_ascii z)%N) by (eapply N.lt_trans; eassumption).
    now apply N.compare_lt_iff in H as ->.
Qed.

Lemma string_compare_refl s : String.compare s s = Eq.
Proof.
  induction s as [|c s IH]; simpl; [reflexivity|].
  unfold Ascii.compare. now rewrite N.compare_refl.
Qed.

Lemma string_leb_trans a b c :
  String.leb a b = true -> String.leb b c = true -> String.leb a c = true.
Proof.
  unfold String.leb.
  destruct (String.compare a b) eqn:Hab; [| |discriminate];
    destruct (String.compare b c) eqn:Hbc; try discriminate; intros _ _.
  - apply String.compare_eq_iff in Hab. apply String.compare_eq_iff in Hbc. subst.
    now rewrite string_compare_refl.
  - apply String.compare_eq_iff in Hab. subst. now rewrite Hbc.
  - apply String.compare_eq_iff in Hbc. subst. now rewrite Hab.
  - now rewrite (string_compare_lt_trans a b c Hab Hbc).
Qed.

Lemma string_ltb_leb a b : String.ltb a b = true -> String.leb a b = true.
Proof. unfold String.ltb, String.leb. now destruct (String.compare a b). Qed.

Lemma string_not_ltb_leb a b : String.ltb a b = false -> String.leb b a = true.
Proof.
  unfold String.ltb, String.leb. rewrite (String.compare_antisym b a).
  now destruct (String.compare a b).
Qed.

(** [latest] returns a row of greatest timestamp. *)
Lemma latest_spec best l :
  In (latest best l) (best :: l)
  /\ forall x, In x (best :: l) -> String.leb (ts x) (ts (latest best l)) = true.
Proof.
  revert best. induction l as [|r l IH]; intros best; simpl.
  - split; [now left|]. intros x [<-|[]]. apply string_leb_refl.
  - set (best' := if String.ltb (ts best) (ts r) then r else best).
    destruct (IH best') as [Hin Hmax].
    assert (Hb : String.leb (ts best) (ts best') = true /\ String.leb (ts r) (ts best') = true).
    { unfold best'. destruct (String.ltb (ts best) (ts r)) eqn:E.
      - split; [now apply string_ltb_leb | apply string_leb_refl].
      - split; [apply string_leb_refl | now apply string_not_ltb_leb]. }
    destruct Hb as [Hb1 Hb2].
    assert (Hbest' : String.leb (ts best') (ts (latest best' l)) = true)
      by (apply Hmax; now left).
    split.
    + destruct Hin as [Hin|Hin]; [|now right; right].
      rewrite <- Hin. unfold best'. destruct (String.ltb (ts best) (ts r)); auto.
    + intros x [<-|[<-|Hx]].
      * eapply string_leb_trans; eassumption.
      * eapply string_leb_trans; eassumption.
      * apply Hmax. now right.
Qed.

Definition track_pair (r : endsong_row) : key :=
  (master_metadata_album_album_name r, spotify_track_uri r).

Lemma distinct_track_data_In seen l r :
  In r (distinct_track_data seen l) -> In r l.
Proof.
  revert seen. induction l as [|x l IH]; intros seen H; simpl in *; [contradiction|].
  destruct (existsb _ seen).
  - right. now apply (IH seen).
  - destruct H as [<-|H]; [now left | right; now apply (IH _ H)].
Qed.

(** DISTINCT keeps a row for every (album, uri) pair. *)
Lemma distinct_track_data_repr seen l r :
  In r l -> existsb (key_eqb (track_pair r)) seen = false ->
  exists r0, In r0 (distinct_track_data seen l) /\ track_pair r0 = track_pair r.
Proof.
  revert seen. induction l as [|x l IH]; intros seen Hin Hseen; [contradiction|].
  simpl. fold (track_pair x).
  destruct (existsb (key_eqb (track_pair x)) seen) eqn:E.
  - destruct Hin as [->|Hin]; [congruence|]. now apply IH.
  - destruct Hin as [->|Hin]; [exists r; split; [now left | reflexivity]|].
    destruct (key_eqb (track_pair r) (track_pair x)) eqn:K.
    + apply key_eqb_eq in K. exists x. split; [now left | now symmetry].
    + destruct (IH (track_pair x :: seen) Hin) as (r0 & Hr0 & Heq).
      * simpl. now rewrite K.
      * exists r0. split; [now right | assumption].
Qed.

(** ** C8: track data *)

Section TrackData.

Variable endsong : list endsong_row.

Lemma has_names_spec k r :
  has_names k r = true <->
  exists t a, k = (Some t, Some a)
              /\ master_metadata_track_name r = Some t
              /\ master_metadata_album_artist_name r = Some a.
Proof.
  unfold has_names, sql_eqb. destruct k as [kt ka]. cbn [fst snd]. split.
  - intros H. apply andb_true_iff in H as [H1 H2].
    destruct (master_metadata_track_name r) as [t'|]; [|discriminate].
    destruct kt as [t|]; [|discriminate].
    destruct (master_metadata_album_artist_name r) as [a'|]; [|discriminate].
    destruct ka as [a|]; [|discriminate].
    apply String.eqb_eq in H1, H2. subst. now exists t, a.
  - intros (t & a & Hk & -> & ->). injection Hk as -> ->.
    now rewrite !String.eqb_refl.
Qed.

(** The query of line 219 returns no row exactly when no row of [endsong]
    has the two names, and otherwise the one pair of a row with the two
    names that no row kept by DISTINCT follows in time. *)
Lemma track_data_spec k :
  (track_data endsong k = [] /\ forall x, In x endsong -> has_names k x = false)
  \/ exists b,
       track_data endsong k = [track_pair b]
       /\ In b endsong /\ has_names k b = true
       /\ forall x, In x endsong -> has_names k x = true ->
            exists x0, In x0 endsong /\ has_names k x0 = true
                       /\ track_pair x0 = track_pair x
                       /\ String.leb (ts x0) (ts b) = true.
Proof.
  unfold track_data.
  destruct (distinct_track_data [] (filter (has_names k) endsong)) as [|r l] eqn:D.
  - left. split; [reflexivity|]. intros x Hx.
    destruct (has_names k x) eqn:E; [|reflexivity].
    assert (Hf : In x (filter (has_names k) endsong)) by (apply filter_In; now split).
    destruct (distinct_track_data_repr [] _ x Hf eq_refl) as (r0 & Hr0 & _).
    rewrite D in Hr0. contradiction.
  - right. destruct (latest_spec r l) as [Hin Hmax]. exists (latest r l).
    assert (Hsub : forall y, In y (r :: l) -> In y endsong /\ has_names k y = true).
    { intros y Hy. rewrite <- D in Hy. apply distinct_track_data_In in Hy.
      now apply filter_In in Hy. }
    split; [reflexivity|]. destruct (Hsub _ Hin) as [Hb1 Hb2].
    split; [assumption|]. split; [assumption|].
    intros x Hx Hn.
    assert (Hf : In x (filter (has_names k) endsong)) by (apply filter_In; now split).
    destruct (distinct_track_data_repr [] _ x Hf eq_refl) as (x0 & Hx0 & Heq).
    rewrite D in Hx0. exists x0. destruct (Hsub _ Hx0) as [H1 H2].
    repeat split; try assumption. now apply Hmax.
Qed.

(** What the loop of line 218 does to a row, and whether it queues it. *)
Definition enrich_row (r : endsong_row) : endsong_row :=
  if needs_track_data r then
    match track_data endsong (names_of r) with
    | [] => r
    | data :: _ => set_track_data (fst data) (snd data) r
    end
  else r.

Definition queued (r : endsong_row) : bool :=
  needs_track_data r
  && match track_data endsong (names_of r) with [] => true | _ => false end.

Definition queue_row (d : list (key * Z)) (r : endsong_row) : list (key * Z) :=
  if queued r then dict_set key_eqb (names_of r) (e_id r) d else d.

Lemma e_id_enrich_row r : e_id (enrich_row r) = e_id r.
Proof.
  unfold enrich_row. destruct (needs_track_data r); [|reflexivity].
  now destruct (track_data endsong (names_of r)).
Qed.

Lemma add_track_data_from pre todo d :
  NoDup (map e_id (pre ++ todo)) ->
  fold_left (add_track_data_row endsong)
    (map (fun r => (names_of r, e_id r)) (filter needs_track_data todo)) (pre ++ todo, d)
  = (pre ++ map enrich_row todo, fold_left queue_row todo d).
Proof.
  revert pre d. induction todo as [|r todo IH]; intros pre d Hnd; [reflexivity|].
  assert (Hnd' : NoDup (map e_id ((pre ++ [enrich_row r]) ++ todo))).
  { rewrite <- app_assoc. simpl. rewrite map_app in *. simpl in *.
    now rewrite e_id_enrich_row. }
  pose proof (fun d' => IH (pre ++ [enrich_row r]) d' Hnd') as IH'. clear IH.
  rewrite <- !app_assoc in IH'.
  change ([enrich_row r] ++ todo) with (enrich_row r :: todo) in IH'.
  change ([enrich_row r] ++ map enrich_row todo) with (map enrich_row (r :: todo)) in IH'.
  change (fold_left queue_row (r :: todo) d) with (fold_left queue_row todo (queue_row d r)).
  rewrite <- (IH' (queue_row d r)). clear IH'.
  cbn [filter]. unfold queue_row, queued, enrich_row.
  destruct (needs_track_data r) eqn:N; [|reflexivity].
  cbn [map fold_left andb]. unfold add_track_data_row at 2. cbn [fst snd].
  destruct (track_data endsong (names_of r)) as [|data l] eqn:T; [reflexivity|].
  now rewrite (update_where_has_id _ pre r todo Hnd).
Qed.

Lemma add_track_data_map m :
  NoDup (map e_id m) ->
  add_track_data endsong m = (map enrich_row m, fold_left queue_row m []).
Proof. intros H. apply (add_track_data_from [] m [] H). Qed.

Lemma queue_rows_keys rows d k :
  In k (map fst (fold_left queue_row rows d)) <->
  In k (map fst d) \/ exists r, In r rows /\ queued r = true /\ names_of r = k.
Proof.
  revert d. induction rows as [|r rows IH]; intros d; simpl.
  - split; [now left | intros [H|(r & [] & _)]; assumption].
  - rewrite IH. unfold queue_row. destruct (queued r) eqn:Q.
    + rewrite dict_set_keys. split.
      * intros [[->|H]|(r' & Hr' & Hq & Hk)].
        -- right. exists r. auto.
        -- now left.
        -- right. exists r'. auto.
      * intros [H|(r' & [<-|Hr'] & Hq & Hk)].
        -- left. now right.
        -- left. left. now symmetry.
        -- right. now exists r'.
    + split.
      * intros [H|(r' & Hr' & Hq & Hk)]; [now left | right; exists r'; auto].
      * intros [H|(r' & [<-|Hr'] & Hq & Hk)]; [now left | congruence | right; now exists r'].
Qed.

End TrackData.




(** ** C9: what aborts a run *)







(** Line 225 deletes the key (Unknown Track, Unknown Artist) from [no_extra]
    without looking whether it is there: a database in which no copy needs
    that key ends the run with KeyError. *)
Example run_without_unknown_track :
  @run Sample.env
    [mkHistory "2022-01-01 10:15" "Y" "X" 180000 "StreamingHistory0.json" 0]
    [broken "2022-01-01T10:15:32Z" 180000 0 10] []
  = Raise KeyError.
Proof. reflexivity. Qed.

(** ** Album and URI as a pair *)

(** [put d r]: the row [r] with album and URI replaced by the pair [d]. *)
Definition put (d : key) (r : endsong_row) : endsong_row :=
  set_track_data (fst d) (snd d) r.

Definition needs (d : key) : bool :=
  match d with
  | (Some _, Some _) => false
  | _ => true
  end.

Lemma put_put d d' r : put d (put d' r) = put d r.
Proof. reflexivity. Qed.

Lemma track_pair_put d r : track_pair (put d r) = d.
Proof. now destruct d. Qed.

Lemma names_of_put d r : names_of (put d r) = names_of r.
Proof. reflexivity. Qed.

Lemma e_id_put d r : e_id (put d r) = e_id r.
Proof. reflexivity. Qed.

Lemma put_track_pair r : put (track_pair r) r = r.
Proof. now destruct r. Qed.

Lemma needs_track_data_needs r : needs_track_data r = needs (track_pair r).
Proof. reflexivity. Qed.

Lemma is_unknown_spec r : is_unknown r = true <-> names_of r = unknown_key.
Proof.
  unfold is_unknown, names_of, unknown_key, sql_eqb.
  destruct (master_metadata_track_name r) as [t|], (master_metadata_album_artist_name r) as [a|];
    simpl; rewrite ?andb_true_iff, ?String.eqb_eq; split;
    try discriminate; try (intros [? ?]; discriminate).
  - intros [-> ->]. reflexivity.
  - intros H. injection H as -> ->. now split.
Qed.

(** [has_key k' k]: the WHERE clause of line 278 for the key [k'] on a row
    with the names [k]. *)
Definition has_key (k' k : key) : bool :=
  sql_eqb (fst k) (fst k') && sql_eqb (snd k) (snd k').

Lemma has_names_has_key k' r : has_names k' r = has_key k' (names_of r).
Proof. reflexivity. Qed.

Lemma has_key_eq k' k : has_key k' k = true -> k' = k.
Proof.
  unfold has_key, sql_eqb. destruct k as [[t|] [a|]], k' as [[t'|] [a'|]]; simpl;
    rewrite ?andb_true_iff, ?String.eqb_eq; try (intros [? ?]; discriminate); try discriminate.
  now intros [-> ->].
Qed.

(** The value of [uri] after the two passes of lines 288-297. *)
Definition normalize_uri (u : string) : string :=
  let u1 := if like "https%" u then spotify_track (strip_link u) else u in
  if negb (like "spotify%" u1) then spotify_track u1 else u1.

Definition norm_td (d : key) : key := (fst d, option_map normalize_uri (snd d)).

Lemma normalize_row_put r : normalize_row r = put (norm_td (track_pair r)) r.
Proof.
  unfold normalize_row, fix_row at 2.
  destruct r as [? ? ? ? ? al [u|] ? ? ?]; cbn [spotify_track_uri]; [|reflexivity].
  unfold put, norm_td, track_pair, normalize_uri.
  cbn [fst snd option_map spotify_track_uri master_metadata_album_album_name].
  destruct (like "https%" u) eqn:H; unfold fix_row;
    cbn [spotify_track_uri set_uri set_track_data master_metadata_album_album_name].
  - now destruct (like "spotify%" (spotify_track (strip_link u))).
  - now destruct (like "spotify%" u).
Qed.

Lemma like_spotify_not_https v : like "spotify%" v = true -> like "https%" v = false.
Proof.
  destruct v as [|c v]; [discriminate|]. simpl.
  destruct (eqb_nocase "s" c) eqn:E; [|discriminate]. intros _.
  unfold eqb_nocase in *. apply Ascii.eqb_eq in E.
  destruct (Ascii.eqb (fold_case "h") (fold_case c)) eqn:H; [|reflexivity].
  apply Ascii.eqb_eq in H. rewrite <- E in H. discriminate.
Qed.

Lemma like_spotify_normalize_uri u : like "spotify%" (normalize_uri u) = true.
Proof.
  unfold normalize_uri.
  destruct (like "spotify%" (if like "https%" u then spotify_track (strip_link u) else u)) eqn:E;
    cbn [negb]; [assumption | apply like_spotify_track].
Qed.

Lemma normalize_uri_fixed v : like "spotify%" v = true -> normalize_uri v = v.
Proof.
  intros H. unfold normalize_uri. rewrite (like_spotify_not_https v H). now rewrite H.
Qed.

Lemma norm_td_twice d : norm_td (norm_td d) = norm_td d.
Proof.
  destruct d as [al [u|]]; unfold norm_td; simpl; [|reflexivity].
  now rewrite (normalize_uri_fixed _ (like_spotify_normalize_uri u)).
Qed.


(** ** The passes after the three loops, row by row *)

Section FinishRows.

Context {env : Env}.
Variable endsong : list endsong_row.

Definition enrich_td (k d : key) : key :=
  if needs d then
    match track_data endsong k with
    | [] => d
    | data :: _ => data
    end
  else d.

Lemma enrich_row_put r :
  enrich_row endsong r = put (enrich_td (names_of r) (track_pair r)) r.
Proof.
  unfold enrich_row, enrich_td. rewrite needs_track_data_needs.
  destruct (needs (track_pair r)); [|now rewrite put_track_pair].
  destruct (track_data endsong (names_of r)) as [|data l]; [now rewrite put_track_pair|].
  reflexivity.
Qed.

(** Whether the browser search is run for a key that selects rows with the
    names [k]. *)
Definition in_work (work : list (key * Z)) (k : key) : bool :=
  existsb (fun kv => has_key (fst kv) k) work.

Definition found_td (work : list (key * Z)) (k d : key) : key :=
  if in_work work k then
    match search k with
    | Found found_album link => (Some found_album, Some (strip_link link))
    | _ => d
    end
  else d.

Definition found_row (work : list (key * Z)) (r : endsong_row) : endsong_row :=
  put (found_td work (names_of r) (track_pair r)) r.

Lemma found_row_nil r : found_row [] r = r.
Proof. unfold found_row, found_td. simpl. apply put_track_pair. Qed.

Lemma found_row_skip (kv : key * Z) (work : list (key * Z)) r :
  (forall al l, search (fst kv) <> Found al l) ->
  found_row (kv :: work) r = found_row work r.
Proof.
  intros Hs. unfold found_row, found_td, in_work.
  destruct (has_key (fst kv) (names_of r)) eqn:E;
    [|cbn [existsb]; cbv beta; rewrite E; reflexivity].
  cbn [existsb]. cbv beta. rewrite E. cbn [orb].
  apply has_key_eq in E. rewrite <- E.
  destruct (search (fst kv)) eqn:S; try (now destruct (existsb _ work)).
  exfalso. eapply Hs. reflexivity.
Qed.

Lemma found_row_found (kv : key * Z) (work : list (key * Z)) r al l :
  search (fst kv) = Found al l ->
  found_row work (if has_names (fst kv) r
                  then set_track_data (Some al) (Some (strip_link l)) r else r)
  = found_row (kv :: work) r.
Proof.
  intros Hs. rewrite has_names_has_key.
  unfold found_row, found_td, in_work.
  destruct (has_key (fst kv) (names_of r)) eqn:E;
    [|cbn [existsb]; cbv beta; rewrite E; reflexivity].
  cbn [existsb]. cbv beta. rewrite E. cbn [orb].
  pose proof (has_key_eq _ _ E) as Hk. rewrite <- Hk, Hs.
  change (set_track_data (Some al) (Some (strip_link l)) r)
    with (put (Some al, Some (strip_link l)) r).
  rewrite names_of_put, track_pair_put, <- Hk, Hs.
  now destruct (existsb _ work).
Qed.

Lemma manual_entry_rows (work : list (key * Z)) m sk m2 sk2 :
  for_each manual_entry_row work (m, sk) = Ok (m2, sk2) ->
  m2 = map (found_row work) m
  /\ forall kv, In kv work -> search (fst kv) <> Crashed.
Proof.
  revert m sk. induction work as [|kv work IH]; intros m sk H.
  - injection H as <- _. split; [|contradiction].
    rewrite <- (map_id m) at 1. apply map_ext. intros r. now rewrite found_row_nil.
  - cbn [for_each] in H. unfold manual_entry_row at 1 in H. cbn [fst snd] in H.
    destruct (search (fst kv)) as [al l| | |] eqn:S; cbn [bind] in H; try discriminate.
    + destruct (IH _ _ H) as [-> Hc]. split.
      * unfold update_where. rewrite map_map. apply map_ext. intros r.
        now apply found_row_found.
      * intros kv' [<-|Hin]; [congruence | now apply Hc].
    + destruct (IH _ _ H) as [-> Hc]. split.
      * apply map_ext. intros r. symmetry. apply found_row_skip. congruence.
      * intros kv' [<-|Hin]; [congruence | now apply Hc].
    + destruct (IH _ _ H) as [-> Hc]. split.
      * apply map_ext. intros r. symmetry. apply found_row_skip. congruence.
      * intros kv' [<-|Hin]; [congruence | now apply Hc].
Qed.


(** The three row operations of [finish] in one. *)
Definition finish_td (work : list (key * Z)) (k d : key) : key :=
  norm_td (found_td work k (enrich_td k d)).

Definition finish_row (work : list (key * Z)) (r : endsong_row) : endsong_row :=
  normalize_row (found_row work (enrich_row endsong r)).

Lemma finish_row_put work r :
  finish_row work r = put (finish_td work (names_of r) (track_pair r)) r.
Proof.
  unfold finish_row, finish_td. rewrite enrich_row_put. unfold found_row.
  rewrite names_of_put, track_pair_put, put_put, normalize_row_put.
  now rewrite track_pair_put, put_put.
Qed.


Lemma is_unknown_finish_row work r : is_unknown (finish_row work r) = is_unknown r.
Proof. now rewrite finish_row_put. Qed.

Lemma NoDup_ids_map (f : endsong_row -> endsong_row) m :
  (forall r, e_id (f r) = e_id r) -> NoDup (map e_id m) -> NoDup (map e_id (map f m)).
Proof. intros H Hnd. rewrite map_map. now rewrite (map_ext _ e_id H). Qed.

(** [finish] on a table with unique ids. *)
Lemma finish_rows st out :
  NoDup (map e_id (endsong_modified st)) ->
  finish endsong st = Ok out ->
  exists work,
    dict_del key_eqb unknown_key (fold_left (queue_row endsong) (endsong_modified st) [])
    = Ok work
    /\ (forall kv, In kv work -> search (fst kv) <> Crashed)
    /\ out_modified out = delete_unknown (map (finish_row work) (endsong_modified st)).
Proof.
  intros Hnd H. apply finish_inv in H as (m1 & ne & work & m2 & sk & Ha & Hd & Hm & ->).
  rewrite (add_track_data_map endsong _ Hnd) in Ha. injection Ha as <- <-.
  exists work. split; [assumption|].
  unfold manual_entry in Hm. apply manual_entry_rows in Hm as [-> Hc].
  split; [assumption|]. cbn [out_modified].
  rewrite fix_uris_map.
  - unfold finish_row. now rewrite !map_map.
  - apply NoDup_ids_map; [intros r; unfold found_row; apply e_id_put|].
    apply NoDup_ids_map; [apply e_id_enrich_row | assumption].
Qed.


End FinishRows.

(** ** Running the later passes again *)

Section FinishTwice.

Context {env : Env}.
Variable endsong : list endsong_row.






End FinishTwice.

(** ** One copy for an id *)

Section OneCopy.

Context {env : Env}.
Variable history : list history_row.
Variable endsong : list endsong_row.
Hypothesis endsong_key : NoDup (map e_id endsong).

Lemma NoDup_ids_insert_and_update p t a m :
  NoDup (map e_id m) -> count_id p m = 0 ->
  NoDup (map e_id (insert_and_update endsong p t a m)).
Proof.
  intros Hnd Hc. rewrite ids_insert_and_update. apply NoDup_app.
  - assumption.
  - now apply NoDup_ids_filter.
  - intros q Hq Hq'. apply in_map_iff in Hq' as (r & <- & Hr).
    apply filter_In in Hr as [_ Hr]. apply has_id_true in Hr. subst.
    apply count_id_zero in Hc. contradiction.
Qed.

Lemma NoDup_ids_try_copy_all acts st :
  NoDup (map e_id (endsong_modified st)) ->
  NoDup (map e_id (endsong_modified (fold_left (try_copy endsong) acts st))).
Proof.
  revert st. induction acts as [|a acts IH]; intros st H; simpl; [assumption|].
  apply IH. unfold try_copy, copy_if_absent.
  destruct (Nat.eqb (count_id (attempt_id a) (endsong_modified st)) 0) eqn:E; [|assumption].
  apply Nat.eqb_eq in E. simpl. now apply NoDup_ids_insert_and_update.
Qed.

Lemma NoDup_ids_fix_none_entries entries st st' :
  NoDup (map e_id (endsong_modified st)) ->
  for_each (fix_none_entry history endsong) entries st = Ok st' ->
  NoDup (map e_id (endsong_modified st')).
Proof.
  revert st. induction entries as [|e entries IH]; intros st Hnd H.
  - now injection H as <-.
  - cbn [for_each] in H.
    destruct (fix_none_entry history endsong st e) as [st1|] eqn:E1; [|discriminate].
    cbn [bind] in H. apply (IH st1); [|assumption].
    apply fix_none_entry_cases in E1 as [[_ ->]|[Hc [->|[->|(t & a & _ & ->)]]]];
      try assumption.
    simpl. now apply NoDup_ids_insert_and_update.
Qed.

(** At most one row for an id, after the three loops and after a whole
    run. *)
Lemma NoDup_ids_resolve m st :
  NoDup (map e_id m) -> resolve history endsong m = Ok st ->
  NoDup (map e_id (endsong_modified st)).
Proof.
  intros Hnd H. apply resolve_ok in H.
  apply (NoDup_ids_fix_none_entries _ _ _) in H; [assumption|].
  unfold after_copies. cbn [with_sets endsong_modified].
  now apply NoDup_ids_try_copy_all.
Qed.






End OneCopy.

(** ** The three loops on the table of an earlier run *)

Definition unknown_names (t a : string) : bool :=
  String.eqb t unknown_track && String.eqb a unknown_artist.

Lemma is_unknown_set_names t a r : is_unknown (set_names t a r) = unknown_names t a.
Proof. reflexivity. Qed.

Section Again.

Context {env : Env}.
Variable history : list history_row.
Variable endsong : list endsong_row.

(** [table1] is the table after the three loops of a first run, [kept] the
    table that the run wrote out: the rows of [table1] that are not named
    Unknown Track by Unknown Artist, id by id. *)
Variable table1 kept : list endsong_row.
Hypothesis table1_key : NoDup (map e_id table1).
Hypothesis kept_ids :
  forall p, In p (map e_id kept) <->
            exists r, In r table1 /\ e_id r = p /\ is_unknown r = false.











End Again.

(** ** C3: running the script again *)





(** ** The counter *)

Section Counter.

Context {env : Env}.
Variable history : list history_row.
Variable endsong : list endsong_row.
Hypothesis endsong_key : NoDup (map e_id endsong).

Lemma insert_and_update_length p t a m :
  List.length (insert_and_update endsong p t a m)
  = List.length m + List.length (filter (has_id p) endsong).
Proof. unfold insert_and_update, update_where. now rewrite length_map, length_app. Qed.

Lemma ios_id_one_row p : ios_id endsong p -> List.length (filter (has_id p) endsong) = 1.
Proof.
  intros (row & Hin & _ & <-). now rewrite (filter_id_unique endsong row endsong_key Hin).
Qed.

(** The table has [n] rows more than the counter says. *)
Definition counted (n : nat) (st : state) : Prop :=
  List.length (endsong_modified st) = n + updated st.

Lemma counted_copy_row n p t a st :
  ios_id endsong p -> counted n st -> counted n (copy_row endsong p t a st).
Proof.
  unfold counted, copy_row. cbn [endsong_modified updated]. intros Hp H.
  rewrite insert_and_update_length, (ios_id_one_row p Hp). lia.
Qed.

Lemma counted_try_copy_all n (acts : list attempt) st :
  (forall a, In a acts -> ios_id endsong (attempt_id a)) ->
  counted n st -> counted n (fold_left (try_copy endsong) acts st).
Proof.
  revert st. induction acts as [|a acts IH]; intros st Hios H; [exact H|].
  cbn [fold_left]. apply IH; [intros; apply Hios; now right|].
  unfold try_copy, copy_if_absent.
  destruct (Nat.eqb (count_id (attempt_id a) (endsong_modified st)) 0); [|exact H].
  apply counted_copy_row; [apply Hios; now left | exact H].
Qed.

Lemma counted_fix_none_entries n entries st st' :
  (forall p, In p entries -> ios_id endsong p) ->
  for_each (fix_none_entry history endsong) entries st = Ok st' ->
  counted n st -> counted n st'.
Proof.
  revert st. induction entries as [|e entries IH]; intros st Hios H Hc.
  - injection H as <-. exact Hc.
  - cbn [for_each] in H.
    destruct (fix_none_entry history endsong st e) as [st1|] eqn:E1; [|discriminate].
    cbn [bind] in H. apply (IH st1 (fun p Hp => Hios p (or_intror Hp)) H).
    apply fix_none_entry_cases in E1 as [[_ ->]|[_ [->|[->|(t & a & _ & ->)]]]];
      try exact Hc.
    apply counted_copy_row; [apply Hios; now left | exact Hc].
Qed.

Lemma counted_resolve m st :
  resolve history endsong m = Ok st -> counted (List.length m) st.
Proof.
  intros H. apply resolve_ok in H.
  apply (counted_fix_none_entries (List.length m)) in H; [exact H | |].
  - intros p Hp. apply set_order_In in Hp. now apply all_none_ios in Hp.
  - unfold after_copies, counted. cbn [with_sets endsong_modified updated].
    apply (counted_try_copy_all (List.length m) (plan history endsong) (mkState m [] [] [] [] 0)).
    + intros a Ha. now apply plan_ios in Ha.
    + unfold counted. simpl. lia.
Qed.

End Counter.

Lemma length_filter_split {A} (f : A -> bool) (l : list A) :
  List.length (filter (fun x => negb (f x)) l) + List.length (filter f l) = List.length l.
Proof.
  induction l as [|x l IH]; [reflexivity|]. simpl. destruct (f x); simpl; lia.
Qed.

Lemma length_delete_unknown_map (f : endsong_row -> endsong_row) (m : list endsong_row) :
  (forall r, is_unknown (f r) = is_unknown r) ->
  List.length (delete_unknown (map f m))
  = List.length (filter (fun r => negb (is_unknown r)) m).
Proof.
  intros Hf. unfold delete_unknown. induction m as [|r m IH]; [reflexivity|].
  cbn [map filter]. rewrite Hf. destruct (is_unknown r); cbn [negb List.length]; now rewrite IH.
Qed.



(** * The files *)

(** ** Objects *)

Lemma lookup_dict_set (k : string) (v : value) (d : pyobj) :
  lookup k (dict_set String.eqb k v d) = Some v.
Proof.
  induction d as [|[k' v'] d IH]; simpl.
  - now rewrite String.eqb_refl.
  - destruct (String.eqb k' k) eqn:E; simpl; rewrite E; [reflexivity | exact IH].
Qed.

Lemma lookup_dict_set_other (k k0 : string) (v : value) (d : pyobj) :
  k0 <> k -> lookup k (dict_set String.eqb k0 v d) = lookup k d.
Proof.
  intros Hne. induction d as [|[k' v'] d IH]; simpl.
  - apply String.eqb_neq in Hne. now rewrite Hne.
  - destruct (String.eqb k' k0) eqn:E; simpl.
    + apply String.eqb_eq in E. subst k'.
      apply String.eqb_neq in Hne. now rewrite Hne.
    + now rewrite IH.
Qed.

Lemma dict_mem_keys_str (k : string) (d : pyobj) :
  dict_mem String.eqb k d = existsb (fun k' => String.eqb k' k) (map fst d).
Proof. induction d as [|[k' v'] d IH]; simpl; [reflexivity | now rewrite IH]. Qed.

(** Assigning to a key that the dict does not have puts it last. *)
Lemma dict_set_absent (k : string) (v : value) (d : pyobj) :
  dict_mem String.eqb k d = false -> dict_set String.eqb k v d = d ++ [(k, v)].
Proof.
  induction d as [|[k' v'] d IH]; simpl; [reflexivity|].
  intros H. apply orb_false_iff in H as [H1 H2]. rewrite H1. now rewrite IH.
Qed.

(** ** The statements of the loader *)

(** The objects of the files in the order in which they are read, each with
    the name of its file. *)
Definition named_objects (files : list json_file) : list (string * pyobj) :=
  flat_map (fun f => map (pair (file_name f)) (file_objects f)) files.

Fixpoint stamp_all (i : Z) (l : list (string * pyobj)) : list insert :=
  match l with
  | [] => []
  | (name, obj) :: l' => mkInsert (table_of name) (stamp name i obj) :: stamp_all (i + 1) l'
  end.

Lemma stamp_all_app i l1 l2 :
  stamp_all i (l1 ++ l2) = stamp_all i l1 ++ stamp_all (i + Z.of_nat (List.length l1)) l2.
Proof.
  revert i. induction l1 as [|[name obj] l1 IH]; intros i; simpl.
  - now rewrite Z.add_0_r.
  - rewrite IH. do 3 f_equal. lia.
Qed.

Lemma read_file_closed name objs (l : list (string * pyobj)) :
  fold_left (read_object name) objs (stamp_all 0 l, Z.of_nat (List.length l))
  = (stamp_all 0 (l ++ map (pair name) objs),
     Z.of_nat (List.length (l ++ map (pair name) objs))).
Proof.
  revert l. induction objs as [|obj objs IH]; intros l; simpl.
  - now rewrite app_nil_r.
  - unfold read_object at 2. cbn [fst snd].
    replace (stamp_all 0 l ++ [mkInsert (table_of name) (stamp name (Z.of_nat (List.length l)) obj)])
      with (stamp_all 0 (l ++ [(name, obj)]))
      by (rewrite stamp_all_app; reflexivity).
    replace (Z.of_nat (List.length l) + 1)%Z with (Z.of_nat (List.length (l ++ [(name, obj)])))
      by (rewrite length_app; simpl; lia).
    rewrite IH. now rewrite <- app_assoc.
Qed.

Lemma read_files_from files (l : list (string * pyobj)) :
  fold_left read_file files (stamp_all 0 l, Z.of_nat (List.length l))
  = (stamp_all 0 (l ++ named_objects files),
     Z.of_nat (List.length (l ++ named_objects files))).
Proof.
  revert l. induction files as [|f files IH]; intros l; simpl.
  - now rewrite app_nil_r.
  - unfold read_file at 2. rewrite read_file_closed, IH. now rewrite <- app_assoc.
Qed.

Lemma read_files_closed hs es :
  read_files hs es
  = (stamp_all 0 (named_objects (hs ++ es)),
     Z.of_nat (List.length (named_objects (hs ++ es)))).
Proof. unfold read_files. apply (read_files_from (hs ++ es) []). Qed.

Lemma stamp_all_length i l : List.length (stamp_all i l) = List.length l.
Proof. revert i. induction l as [|[n o] l IH]; intros i; simpl; [reflexivity | now rewrite IH]. Qed.

Lemma stamp_all_nth i l k s :
  nth_error (stamp_all i l) k = Some s <->
  exists name obj,
    nth_error l k = Some (name, obj)
    /\ s = mkInsert (table_of name) (stamp name (i + Z.of_nat k) obj).
Proof.
  revert i k. induction l as [|[n o] l IH]; intros i k.
  - destruct k; simpl; split; try discriminate; intros (? & ? & ? & _); discriminate.
  - destruct k as [|k]; simpl.
    + rewrite Z.add_0_r. split.
      * intros H. injection H as <-. now exists n, o.
      * intros (name & obj & H & ->). now injection H as -> ->.
    + rewrite IH. replace (i + 1 + Z.of_nat k)%Z with (i + Z.pos (Pos.of_succ_nat k))%Z by lia.
      reflexivity.
Qed.

Lemma named_objects_app fs1 fs2 :
  named_objects (fs1 ++ fs2) = named_objects fs1 ++ named_objects fs2.
Proof. unfold named_objects. apply flat_map_app. Qed.

Lemma named_objects_file fs name obj :
  In (name, obj) (named_objects fs) -> exists f, In f fs /\ file_name f = name.
Proof.
  unfold named_objects. rewrite in_flat_map. intros (f & Hf & Hin).
  apply in_map_iff in Hin as (o & Heq & _). injection Heq as <- _. now exists f.
Qed.

(** The ids that the statements for one table bind, in the order of the
    statements. *)
Definition ids_into (table : string) (log : list insert) : list Z :=
  flat_map (fun s => if String.eqb (into s) table then
                       match lookup "id" (bindings s) with
                       | Some (VInt n) => [n]
                       | _ => []
                       end
                     else []) log.

Lemma ids_into_stamp_all_cons t i name obj l :
  ids_into t (stamp_all i ((name, obj) :: l))
  = (if String.eqb (table_of name) t then [i] else []) ++ ids_into t (stamp_all (i + 1) l).
Proof.
  unfold ids_into. cbn [stamp_all flat_map into bindings].
  unfold stamp. now rewrite lookup_dict_set.
Qed.

Lemma ids_into_stamp_all_spec t i l n :
  In n (ids_into t (stamp_all i l)) <->
  exists k name obj,
    nth_error l k = Some (name, obj) /\ table_of name = t /\ n = (i + Z.of_nat k)%Z.
Proof.
  revert i. induction l as [|[name obj] l IH]; intros i.
  - simpl. split; [contradiction|]. intros ([|k] & ? & ? & H & _); discriminate.
  - rewrite ids_into_stamp_all_cons, in_app_iff, IH. split.
    + intros [H|(k & name' & obj' & Hk & Ht & ->)].
      * destruct (String.eqb (table_of name) t) eqn:E; [|contradiction].
        destruct H as [<-|[]]. exists 0, name, obj.
        split; [reflexivity|]. split; [now apply String.eqb_eq | lia].
      * exists (S k), name', obj'. split; [assumption|]. split; [assumption | lia].
    + intros ([|k] & name' & obj' & Hk & Ht & ->).
      * left. simpl in Hk. injection Hk as -> ->.
        apply String.eqb_eq in Ht. rewrite Ht. left. lia.
      * right. exists k, name', obj'. split; [assumption|]. split; [assumption | lia].
Qed.

Lemma ids_into_stamp_all_sorted t i l : StronglySorted Z.lt (ids_into t (stamp_all i l)).
Proof.
  revert i. induction l as [|[name obj] l IH]; intros i; [constructor|].
  rewrite ids_into_stamp_all_cons.
  destruct (String.eqb (table_of name) t); [|apply IH].
  cbn [app]. constructor; [apply IH|].
  apply Forall_forall. intros n Hn.
  apply ids_into_stamp_all_spec in Hn as (k & _ & _ & _ & _ & ->). lia.
Qed.

Lemma table_of_cases name : table_of name = "history" \/ table_of name = "endsong".
Proof. unfold table_of. destruct (String.prefix _ name); auto. Qed.

Lemma ids_into_stamp_all_length i l :
  List.length (ids_into "history" (stamp_all i l))
  + List.length (ids_into "endsong" (stamp_all i l)) = List.length l.
Proof.
  revert i. induction l as [|[name obj] l IH]; intros i; [reflexivity|].
  rewrite !ids_into_stamp_all_cons, !length_app. specialize (IH (i + 1)%Z).
  destruct (table_of_cases name) as [-> | ->]; simpl; lia.
Qed.

(** X1.  The loader gives the objects of the files the numbers 0, 1, 2, ...
    in the order in which it reads them, across files and across the two
    tables: the k-th statement goes to the table that the name of its file
    selects and binds [id] to k and [source] to the name of the file, and
    every other key to the value it has in the file; the counter ends at the
    number of objects. *)
Theorem loader_numbers_objects_in_reading_order (hs es : list json_file) :
  let log := fst (read_files hs es) in
  let objs := named_objects (hs ++ es) in
  snd (read_files hs es) = Z.of_nat (List.length objs)
  /\ List.length log = List.length objs
  /\ forall k name obj, nth_error objs k = Some (name, obj) ->
       exists s, nth_error log k = Some s
         /\ into s = table_of name
         /\ lookup "id" (bindings s) = Some (VInt (Z.of_nat k))
         /\ lookup "source" (bindings s) = Some (VStr name)
         /\ forall c, c <> "id" -> c <> "source" -> lookup c (bindings s) = lookup c obj.
Proof.
  intros log objs. unfold log. rewrite read_files_closed. cbn [fst snd]. fold objs.
  split; [reflexivity|]. split; [apply stamp_all_length|].
  intros k name obj Hk. eexists. split.
  - apply stamp_all_nth. exists name, obj. split; [exact Hk | reflexivity].
  - cbn [into bindings]. split; [reflexivity|]. unfold stamp.
    split; [now rewrite lookup_dict_set|]. split.
    + rewrite lookup_dict_set_other by discriminate. apply lookup_dict_set.
    + intros c H1 H2. rewrite !lookup_dict_set_other by congruence. reflexivity.
Qed.

Definition sample_files_h : list json_file :=
  [mkFile "StreamingHistory0.json"
     [[("endTime", VStr "2022-01-01 10:15"); ("artistName", VStr "Y");
       ("trackName", VStr "X"); ("msPlayed", VInt 180000)];
      [("endTime", VStr "2022-01-01 10:20"); ("artistName", VStr "Y");
       ("trackName", VStr "Z"); ("msPlayed", VInt 1000)]]].

Definition sample_files_e : list json_file :=
  [mkFile "endsong_0.json" [[("ts", VStr "2022-01-01T10:15:32Z"); ("platform", VStr "ios")]]].

Lemma loader_numbers_objects_in_reading_order_witness :
  exists s, nth_error (fst (read_files sample_files_h sample_files_e)) 2 = Some s
            /\ into s = "endsong"
            /\ lookup "id" (bindings s) = Some (VInt 2).
Proof.
  destruct (loader_numbers_objects_in_reading_order sample_files_h sample_files_e)
    as (_ & _ & H).
  destruct (H 2 "endsong_0.json" [("ts", VStr "2022-01-01T10:15:32Z"); ("platform", VStr "ios")]
              eq_refl) as (s & Hs & Hi & Hid & _).
  exists s. split; [exact Hs|]. split; [exact Hi | exact Hid].
Defined.

(** X2.  Within each table the ids grow in the order of the INSERT
    statements, every statement gives its table one id, and no id goes to
    both tables.  When the files of the first glob are those that go to
    [history], every id in [history] is below every id in [endsong]. *)
Theorem ids_grow_within_each_table (hs es : list json_file) :
  let log := fst (read_files hs es) in
  Sorted Z.lt (ids_into "history" log)
  /\ Sorted Z.lt (ids_into "endsong" log)
  /\ List.length (ids_into "history" log) + List.length (ids_into "endsong" log)
     = List.length log
  /\ (forall n, In n (ids_into "history" log) -> ~ In n (ids_into "endsong" log))
  /\ ((forall f, In f hs -> String.prefix "StreamingHistory" (file_name f) = true) ->
      (forall f, In f es -> String.prefix "StreamingHistory" (file_name f) = false) ->
      forall a b, In a (ids_into "history" log) -> In b (ids_into "endsong" log) ->
                  (a < b)%Z).
Proof.
  intros log. unfold log. rewrite read_files_closed. cbn [fst].
  split; [apply StronglySorted_Sorted, ids_into_stamp_all_sorted|].
  split; [apply StronglySorted_Sorted, ids_into_stamp_all_sorted|].
  split; [rewrite stamp_all_length; apply ids_into_stamp_all_length|].
  split.
  - intros n H1 H2.
    apply ids_into_stamp_all_spec in H1 as (k1 & n1 & o1 & Hk1 & Ht1 & ->).
    apply ids_into_stamp_all_spec in H2 as (k2 & n2 & o2 & Hk2 & Ht2 & Heq).
    assert (k1 = k2) by lia. subst k2. rewrite Hk1 in Hk2. injection Hk2 as <- _.
    congruence.
  - intros Hh He a b Ha Hb.
    apply ids_into_stamp_all_spec in Ha as (k1 & n1 & o1 & Hk1 & Ht1 & ->).
    apply ids_into_stamp_all_spec in Hb as (k2 & n2 & o2 & Hk2 & Ht2 & ->).
    rewrite named_objects_app in Hk1, Hk2.
    assert (H1 : k1 < List.length (named_objects hs)).
    { destruct (Nat.lt_ge_cases k1 (List.length (named_objects hs))) as [H|H]; [assumption|].
      rewrite nth_error_app2 in Hk1 by assumption.
      apply nth_error_In, named_objects_file in Hk1 as (f & Hf & <-).
      unfold table_of in Ht1. rewrite (He f Hf) in Ht1. discriminate. }
    assert (H2 : List.length (named_objects hs) <= k2).
    { destruct (Nat.lt_ge_cases k2 (List.length (named_objects hs))) as [H|H]; [|assumption].
      rewrite nth_error_app1 in Hk2 by assumption.
      apply nth_error_In, named_objects_file in Hk2 as (f & Hf & <-).
      unfold table_of in Ht2. rewrite (Hh f Hf) in Ht2. discriminate. }
    lia.
Qed.

Lemma ids_grow_within_each_table_witness :
  ids_into "history" (fst (read_files sample_files_h sample_files_e)) = [0; 1]%Z
  /\ ids_into "endsong" (fst (read_files sample_files_h sample_files_e)) = [2]%Z
  /\ forall a b,
       In a (ids_into "history" (fst (read_files sample_files_h sample_files_e))) ->
       In b (ids_into "endsong" (fst (read_files sample_files_h sample_files_e))) ->
       (a < b)%Z.
Proof.
  split; [reflexivity|]. split; [reflexivity|].
  destruct (ids_grow_within_each_table sample_files_h sample_files_e) as (_ & _ & _ & _ & H).
  apply H.
  - intros f [<-|[]]. reflexivity.
  - intros f [<-|[]]. reflexivity.
Defined.

(** The columns of a table. *)
Definition columns (table : string) : list string :=
  if String.eqb table "history" then history_columns else endsong_columns.

Lemma stamp_fresh name i obj :
  dict_mem String.eqb "source" obj = false -> dict_mem String.eqb "id" obj = false ->
  stamp name i obj = obj ++ [("source", VStr name); ("id", VInt i)].
Proof.
  intros Hs Hi. unfold stamp. rewrite (dict_set_absent "source" _ obj Hs).
  rewrite dict_set_absent.
  - now rewrite <- app_assoc.
  - rewrite dict_mem_keys_str, map_app, existsb_app, <- dict_mem_keys_str, Hi. reflexivity.
Qed.

(** X3.  The INSERT statement names no columns: its placeholders are the
    keys of the object in the order of the object, and the values reach the
    columns by position.  For an object whose keys are the columns of its
    table without [source] and [id], in the order of the table, the two new
    keys come last, where the table has these two columns, and the
    placeholders are the columns of the table in order. *)
Theorem placeholders_follow_the_keys (name : string) (i : Z) (obj : pyobj) :
  let cols := columns (table_of name) in
  map fst obj = firstn (List.length cols - 2) cols ->
  stamp name i obj = obj ++ [("source", VStr name); ("id", VInt i)]
  /\ map fst (stamp name i obj) = cols
  /\ sql_text (mkInsert (table_of name) (stamp name i obj))
     = ("INSERT INTO " ++ table_of name ++ " VALUES ("
        ++ String.concat "," (map (String ":") cols) ++ ")")%string.
Proof.
  intros cols Hkeys.
  assert (Hs : dict_mem String.eqb "source" obj = false).
  { rewrite dict_mem_keys_str, Hkeys. unfold cols, columns, table_of.
    now destruct (String.prefix "StreamingHistory" name). }
  assert (Hi : dict_mem String.eqb "id" obj = false).
  { rewrite dict_mem_keys_str, Hkeys. unfold cols, columns, table_of.
    now destruct (String.prefix "StreamingHistory" name). }
  assert (Hk : map fst (stamp name i obj) = cols).
  { rewrite (stamp_fresh name i obj Hs Hi), map_app, Hkeys.
    unfold cols, columns, table_of.
    now destruct (String.prefix "StreamingHistory" name). }
  split; [now apply stamp_fresh|]. split; [exact Hk|].
  unfold sql_text, keys_str. cbn [into bindings]. rewrite Hk. reflexivity.
Qed.

Lemma placeholders_follow_the_keys_witness :
  sql_text (mkInsert "history"
              (stamp "StreamingHistory0.json" 7
                 [("endTime", VStr "2022-01-01 10:15"); ("artistName", VStr "Y");
                  ("trackName", VStr "X"); ("msPlayed", VInt 180000)]))
  = "INSERT INTO history VALUES (:endTime,:artistName,:trackName,:msPlayed,:source,:id)".
Proof.
  destruct (placeholders_follow_the_keys "StreamingHistory0.json" 7
              [("endTime", VStr "2022-01-01 10:15"); ("artistName", VStr "Y");
               ("trackName", VStr "X"); ("msPlayed", VInt 180000)] eq_refl)
    as (_ & _ & H).
  exact H.
Defined.

(** ** The exported objects *)

(** The row with a new [source] and a new [id]. *)
Definition reloaded (name : string) (i : Z) (r : endsong_row) : endsong_row :=
  let a := aux r in
  mkEndsong (ts r) (platform r) (ms_played r) (master_metadata_track_name r)
    (master_metadata_album_artist_name r) (master_metadata_album_album_name r)
    (spotify_track_uri r) (offline_timestamp r)
    (mkAux (username a) (conn_country a) (ip_addr_decrypted a) (user_agent_decrypted a)
       (episode_name a) (episode_show_name a) (spotify_episode_uri a) (reason_start a)
       (reason_end a) (shuffle a) (skipped a) (offline a) (incognito_mode a) (Some name))
    i.

Lemma export_row_ok r : export_row r = Ok (firstn 21 (row_dict r)).
Proof. reflexivity. Qed.

Lemma export_from m acc :
  for_each (fun res row => d <- export_row row ;; Ok (res ++ [d])) m acc
  = Ok (acc ++ map (fun r => firstn 21 (row_dict r)) m).
Proof.
  revert acc. induction m as [|r m IH]; intros acc; cbn [for_each map].
  - now rewrite app_nil_r.
  - rewrite export_row_ok. cbn [bind]. rewrite IH. now rewrite <- app_assoc.
Qed.

(** X4.  Writing the result never fails: every row of [endsong_modified]
    has the keys [source] and [id] that lines 307 and 308 delete.  The list
    that is written has one object for each row, in the order of the table,
    and each object holds the first 21 columns of its row under their names,
    in the order of the table, and neither [source] nor [id]. *)
Theorem export_leaves_out_source_and_id (m : list endsong_row) :
  exists objs,
    export m = Ok objs
    /\ List.length objs = List.length m
    /\ forall k r, nth_error m k = Some r ->
         exists obj, nth_error objs k = Some obj
           /\ map fst obj = firstn 21 endsong_columns
           /\ map snd obj = firstn 21 (row_values r)
           /\ lookup "source" obj = None /\ lookup "id" obj = None.
Proof.
  exists (map (fun r => firstn 21 (row_dict r)) m).
  split; [apply (export_from m [])|]. split; [apply length_map|].
  intros k r Hk. exists (firstn 21 (row_dict r)).
  split; [now rewrite nth_error_map, Hk|].
  repeat split.
Qed.

Lemma export_leaves_out_source_and_id_witness :
  exists obj, export [broken "2022-01-01T10:15:32Z" 180000 0 10] = Ok [obj]
              /\ lookup "id" obj = None
              /\ lookup "ms_played" obj = Some (VInt 180000).
Proof.
  destruct (export_leaves_out_source_and_id [broken "2022-01-01T10:15:32Z" 180000 0 10])
    as (objs & He & Hl & H).
  destruct (H 0 _ eq_refl) as (obj & Hk & Hf & Hs & _ & Hid).
  destruct objs as [|o [|o' objs]]; try discriminate Hl.
  injection Hk as ->. exists obj. split; [exact He|]. split; [exact Hid|].
  vm_compute in He. injection He as <-. reflexivity.
Defined.

(** X5.  An object that the script wrote can be read by the script: in a
    file that goes to [endsong] the loader puts [source] and [id] behind
    the 21 keys, so that the placeholders of the statement are the 23
    columns of [endsong] in order and the values are those of the row,
    with the name of the file and the new id in the last two columns. *)
Theorem exported_object_loads_back (r : endsong_row) (obj : pyobj) (name : string) (i : Z) :
  export_row r = Ok obj ->
  String.prefix "StreamingHistory" name = false ->
  let s := mkInsert (table_of name) (stamp name i obj) in
  into s = "endsong"
  /\ map fst (bindings s) = endsong_columns
  /\ map snd (bindings s) = row_values (reloaded name i r)
  /\ sql_text s
     = ("INSERT INTO endsong VALUES (" ++ String.concat "," (map (String ":") endsong_columns)
        ++ ")")%string.
Proof.
  intros He Hn s. rewrite export_row_ok in He.
  assert (Ho : obj = firstn 21 (row_dict r)) by congruence.
  assert (Hst : stamp name i obj = obj ++ [("source", VStr name); ("id", VInt i)])
    by (apply stamp_fresh; rewrite Ho; reflexivity).
  unfold s, sql_text, keys_str, table_of. rewrite Hn. cbn [into bindings].
  rewrite Hst, Ho. repeat split.
Qed.

Lemma exported_object_loads_back_witness :
  exists obj,
    export_row (broken "2022-01-01T10:15:32Z" 180000 0 10) = Ok obj
    /\ map snd (stamp "endsong_00.json" 3 obj)
       = row_values (reloaded "endsong_00.json" 3 (broken "2022-01-01T10:15:32Z" 180000 0 10)).
Proof.
  eexists. split; [reflexivity|].
  destruct (exported_object_loads_back (broken "2022-01-01T10:15:32Z" 180000 0 10) _
              "endsong_00.json" 3 eq_refl eq_refl) as (_ & _ & H & _).
  exact H.
Defined.

(** * The counter and the failures of the matching loops *)

Lemma sample_quote_free h :
  In h Sample.history -> quote_free (endTime h) = true.
Proof.
  intros H. simpl in H.
  repeat (destruct H as [<-|H]; [reflexivity|]). contradiction.
Qed.

(** X6.  The number printed as [Updated] is the number of rows that the
    three loops added to [endsong_modified]: the table ends the loops with
    that many rows more than it had.  The copies named Unknown Track by
    Unknown Artist are counted although they are deleted before the table
    is written.  (No [endTime] holds a single quote, see [quote_free].) *)
Theorem updated_counts_the_copies (env : Env) (history : list history_row)
    (endsong m : list endsong_row) (out : outcome) :
  NoDup (map e_id endsong) -> NoDup (map e_id m) ->
  (forall h, In h history -> quote_free (endTime h) = true) ->
  run history endsong m = Ok out ->
  exists st,
    resolve history endsong m = Ok st
    /\ List.length (endsong_modified st) = List.length m + out_updated out
    /\ List.length (out_modified out) + List.length (filter is_unknown (endsong_modified st))
       = List.length m + out_updated out.
Proof.
  intros Hkey Hm _ Hrun. unfold run in Hrun.
  destruct (resolve history endsong m) as [st|] eqn:Hres; [|discriminate].
  cbn [bind] in Hrun. exists st. split; [reflexivity|].
  pose proof (counted_resolve history endsong Hkey m st Hres) as Hc. unfold counted in Hc.
  pose proof (NoDup_ids_resolve history endsong Hkey m st Hm Hres) as Hnd.
  destruct (finish_rows endsong st out Hnd Hrun) as (work & _ & _ & Hout).
  assert (Hup : out_updated out = updated st).
  { apply finish_inv in Hrun as (? & ? & ? & ? & ? & _ & _ & _ & ->). reflexivity. }
  rewrite Hup. split; [exact Hc|].
  rewrite Hout, <- Hc.
  rewrite (length_delete_unknown_map _ _ (is_unknown_finish_row endsong work)).
  apply length_filter_split.
Qed.

Lemma updated_counts_the_copies_witness :
  exists out st,
    @run Sample.env Sample.history Sample.endsong [] = Ok out
    /\ @resolve Sample.env Sample.history Sample.endsong [] = Ok st
    /\ List.length (endsong_modified st) = 0 + out_updated out.
Proof.
  destruct (@run Sample.env Sample.history Sample.endsong []) as [out|] eqn:E;
    [|vm_compute in E; discriminate].
  destruct (updated_counts_the_copies Sample.env Sample.history Sample.endsong [] out
              SampleFacts.endsong_key (NoDup_nil _) sample_quote_free E)
    as (st & Hres & Hc & _).
  exists out, st. split; [reflexivity|]. split; [exact Hres | exact Hc].
Defined.




(** * After the matching *)

Lemma manual_entry_raises {env : Env} (work : list (key * Z)) acc e :
  for_each manual_entry_row work acc = Raise e ->
  e = WebDriverError /\ exists kv, In kv work /\ search (fst kv) = Crashed.
Proof.
  revert acc. induction work as [|kv work IH]; intros acc H; [discriminate|].
  cbn [for_each] in H. unfold manual_entry_row at 1 in H.
  destruct (search (fst kv)) eqn:S; cbn [bind] in H.
  - destruct (IH _ H) as (He & kv' & Hin & Hc). split; [exact He|]. exists kv'. auto using in_cons.
  - destruct (IH _ H) as (He & kv' & Hin & Hc). split; [exact He|]. exists kv'. auto using in_cons.
  - destruct (IH _ H) as (He & kv' & Hin & Hc). split; [exact He|]. exists kv'. auto using in_cons.
  - injection H as <-. split; [reflexivity|]. exists kv. split; [now left | exact S].
Qed.

Lemma track_data_nil endsong k :
  track_data endsong k = [] <-> forall x, In x endsong -> has_names k x = false.
Proof.
  destruct (track_data_spec endsong k) as [[H1 H2]|(b & H1 & Hb & Hn & _)].
  - tauto.
  - split; [rewrite H1; discriminate|].
    intros H. rewrite (H b Hb) in Hn. discriminate.
Qed.

Lemma queued_spec endsong r :
  queued endsong r = true <->
  needs_track_data r = true /\ forall x, In x endsong -> has_names (names_of r) x = false.
Proof.
  unfold queued. rewrite andb_true_iff, <- track_data_nil.
  destruct (track_data endsong (names_of r)); split; intros [H1 H2]; split;
    try assumption; try reflexivity; discriminate.
Qed.

(** X8.  Line 225 deletes the key (Unknown Track, Unknown Artist) from
    [no_extra] whether or not it is there.  On a table with unique ids the
    later passes end with KeyError exactly when no row of the table is
    named Unknown Track by Unknown Artist and lacks album or URI while
    [endsong] has no row with these two names. *)
Theorem line_225_needs_an_unknown_track (env : Env) (endsong : list endsong_row)
    (st : state) :
  NoDup (map e_id (endsong_modified st)) ->
  (finish endsong st = Raise KeyError <->
   ~ exists r, In r (endsong_modified st)
               /\ needs_track_data r = true /\ is_unknown r = true
               /\ forall x, In x endsong -> is_unknown x = false).
Proof.
  intros Hnd.
  assert (Hkeys : In unknown_key
                    (map fst (fold_left (queue_row endsong) (endsong_modified st) []))
                  <-> exists r, In r (endsong_modified st)
                                /\ needs_track_data r = true /\ is_unknown r = true
                                /\ forall x, In x endsong -> is_unknown x = false).
  { rewrite queue_rows_keys. split.
    - intros [[]|(r & Hr & Hq & Hk)]. exists r. split; [exact Hr|].
      apply queued_spec in Hq as [Hneeds Hno]. split; [exact Hneeds|].
      split; [now apply is_unknown_spec|]. rewrite Hk in Hno. exact Hno.
    - intros (r & Hr & Hneeds & Hu & Hno). right. exists r. split; [exact Hr|].
      apply is_unknown_spec in Hu. split; [|exact Hu].
      apply queued_spec. split; [exact Hneeds|]. rewrite Hu. exact Hno. }
  rewrite <- Hkeys, <- dict_mem_keys.
  unfold finish. rewrite (add_track_data_map endsong _ Hnd). unfold dict_del.
  destruct (dict_mem key_eqb unknown_key
              (fold_left (queue_row endsong) (endsong_modified st) [])) eqn:E.
  - cbn [bind]. split; [|intros H; now contradiction H].
    intros H. exfalso. unfold manual_entry in H.
    destruct (for_each manual_entry_row _ _) as [ms|e] eqn:M; [discriminate|].
    apply manual_entry_raises in M as [-> _]. discriminate.
  - cbn [bind]. split; [intros _; discriminate | reflexivity].
Qed.

Lemma line_225_needs_an_unknown_track_witness :
  @finish Sample.env Sample.endsong (mkState [] [] [] [] [] 0) = Raise KeyError.
Proof.
  apply (line_225_needs_an_unknown_track Sample.env Sample.endsong (mkState [] [] [] [] [] 0)).
  - constructor.
  - intros (r & [] & _).
Defined.

(** X9.  What the later passes write: on a table with unique ids every row
    that is written is a row that the three loops left in the table, with
    at most its album and its URI replaced; it is not named Unknown Track
    by Unknown Artist; and its URI, when it has one, begins with [spotify]
    as LIKE compares. *)
Theorem written_rows_are_normalized (env : Env) (endsong : list endsong_row)
    (st : state) (out : outcome) :
  NoDup (map e_id (endsong_modified st)) ->
  finish endsong st = Ok out ->
  forall r, In r (out_modified out) ->
    is_unknown r = false
    /\ (forall u, spotify_track_uri r = Some u -> like "spotify%" u = true)
    /\ exists r0 album uri,
         In r0 (endsong_modified st) /\ r = set_track_data album uri r0.
Proof.
  intros Hnd Hfin r Hr.
  destruct (finish_rows endsong st out Hnd Hfin) as (work & _ & _ & Hout).
  rewrite Hout in Hr. apply delete_unknown_In in Hr as [Hr Hu].
  apply in_map_iff in Hr as (r0 & <- & Hr0).
  split; [exact Hu|]. rewrite finish_row_put. split.
  - unfold finish_td, norm_td, put. cbn [spotify_track_uri set_track_data snd].
    intros u H.
    destruct (snd (found_td work (names_of r0) (enrich_td endsong (names_of r0) (track_pair r0))))
      as [u0|]; [|discriminate].
    cbn [option_map] in H. injection H as <-. apply like_spotify_normalize_uri.
  - now exists r0, (fst (finish_td endsong work (names_of r0) (track_pair r0))),
      (snd (finish_td endsong work (names_of r0) (track_pair r0))).
Qed.

Lemma written_rows_are_normalized_witness :
  exists out,
    @run Sample.env Sample.history Sample.endsong [] = Ok out
    /\ forall r, In r (out_modified out) -> is_unknown r = false.
Proof.
  destruct (@run Sample.env Sample.history Sample.endsong []) as [out|] eqn:E;
    [|vm_compute in E; discriminate].
  exists out. split; [reflexivity|]. intros r Hr.
  unfold run in E.
  destruct (@resolve Sample.env Sample.history Sample.endsong []) as [st|] eqn:R;
    [|discriminate].
  cbn [bind] in E.
  assert (Hnd : NoDup (map e_id (endsong_modified st)))
    by (apply (NoDup_ids_resolve Sample.history Sample.endsong SampleFacts.endsong_key [] st
                 (NoDup_nil _) R)).
  destruct (written_rows_are_normalized Sample.env Sample.endsong st out Hnd E r Hr) as [H _].
  exact H.
Defined.

Lemma normalize_row_twice r : normalize_row (normalize_row r) = normalize_row r.
Proof.
  rewrite !normalize_row_put, track_pair_put, put_put. now rewrite norm_td_twice.
Qed.

Lemma select_uris_nil (cond : string -> bool) (m : list endsong_row) :
  (forall r u, In r m -> spotify_track_uri r = Some u -> cond u = false) ->
  select_uris cond m = [].
Proof.
  induction m as [|r m IH]; intros H; [reflexivity|].
  unfold select_uris. cbn [flat_map]. fold (select_uris cond m).
  rewrite IH by (intros r' u Hr'; apply H; now right).
  destruct (spotify_track_uri r) as [u|] eqn:E; [|reflexivity].
  now rewrite (H r u (or_introl eq_refl) E).
Qed.

Lemma normalize_row_uri r u :
  spotify_track_uri (normalize_row r) = Some u -> like "spotify%" u = true.
Proof.
  rewrite normalize_row_put. unfold put, norm_td. cbn [spotify_track_uri set_track_data snd].
  destruct (snd (track_pair r)) as [u0|]; [|discriminate].
  cbn [option_map]. intros H. injection H as <-. apply like_spotify_normalize_uri.
Qed.

(** X10.  The two passes over the URIs finish the job: on a table with
    unique ids, after them neither SELECT (line 289, line 295) finds a row,
    and running the two passes again changes nothing. *)
Theorem uri_passes_reach_a_fixed_point (m : list endsong_row) :
  NoDup (map e_id m) ->
  let once := fix_uris_2 (fix_uris_1 m) in
  select_uris (like "https%") once = []
  /\ select_uris (fun u => negb (like "spotify%" u)) once = []
  /\ fix_uris_2 (fix_uris_1 once) = once.
Proof.
  intros Hnd once. unfold once. rewrite (fix_uris_map m Hnd).
  assert (Hs : forall r u, In r (map normalize_row m) -> spotify_track_uri r = Some u ->
                           like "spotify%" u = true).
  { intros r u Hr Hu. apply in_map_iff in Hr as (r0 & <- & _).
    now apply normalize_row_uri in Hu. }
  split.
  { apply select_uris_nil. intros r u Hr Hu. apply like_spotify_not_https. eauto. }
  split.
  { apply select_uris_nil. intros r u Hr Hu. now rewrite (Hs r u Hr Hu). }
  rewrite fix_uris_map.
  - rewrite map_map. apply map_ext. apply normalize_row_twice.
  - apply NoDup_ids_map; [apply e_id_normalize_row | exact Hnd].
Qed.

Lemma uri_passes_reach_a_fixed_point_witness :
  let m := [with_uri 1 "https://open.spotify.com/track/4uLU6hMCjMI75M1A2tKUQC?si=abc";
            with_uri 2 "4uLU6hMCjMI75M1A2tKUQC"] in
  fix_uris_2 (fix_uris_1 (fix_uris_2 (fix_uris_1 m))) = fix_uris_2 (fix_uris_1 m).
Proof.
  intros m.
  assert (Hnd : NoDup (map e_id m))
    by (simpl; repeat constructor; simpl; intuition discriminate).
  destruct (uri_passes_reach_a_fixed_point m Hnd) as (_ & _ & H). exact H.
Defined.

(** * From the initial pass to the clusters *)









(** * The browser search and its report *)

Lemma dict_set_keys_Z (p k : Z) (v : Z) (d : list (Z * Z)) :
  In p (map fst (dict_set Z.eqb k v d)) <-> p = k \/ In p (map fst d).
Proof.
  induction d as [|[k0 v0] d IH]; simpl.
  - split; [intros [H|[]]; now left | intros [H|[]]; now left].
  - destruct (Z.eqb k0 k) eqn:E; simpl.
    + apply Z.eqb_eq in E. subst. intuition congruence.
    + rewrite IH. intuition congruence.
Qed.

Lemma manual_entry_skipped {env : Env} (work : list (key * Z)) m sk m2 sk2 :
  for_each manual_entry_row work (m, sk) = Ok (m2, sk2) ->
  forall p, In p (map fst sk2) <->
            In p (map fst sk) \/ exists k, In (k, p) work /\ search k = NotFound.
Proof.
  revert m sk. induction work as [|[k v] work IH]; intros m sk H p.
  - injection H as _ <-. split; [now left | intros [H|(k & [] & _)]; exact H].
  - cbn [for_each] in H. unfold manual_entry_row at 1 in H. cbn [fst snd] in H.
    destruct (search k) as [al l| | |] eqn:S; cbn [bind] in H; try discriminate.
    + rewrite (IH _ _ H p). split.
      * intros [Hp|(k' & Hin & Hs)]; [now left | right; exists k'; split; [now right | exact Hs]].
      * intros [Hp|(k' & [Heq|Hin] & Hs)]; [now left | | right; now exists k'].
        injection Heq as <- _. congruence.
    + rewrite (IH _ _ H p). rewrite dict_set_keys_Z. split.
      * intros [[->|Hp]|(k' & Hin & Hs)].
        -- right. exists k. split; [now left | exact S].
        -- now left.
        -- right. exists k'. split; [now right | exact Hs].
      * intros [Hp|(k' & [Heq|Hin] & Hs)].
        -- left. now right.
        -- injection Heq as <- <-. left. now left.
        -- right. now exists k'.
    + rewrite (IH _ _ H p). split.
      * intros [Hp|(k' & Hin & Hs)]; [now left | right; exists k'; split; [now right | exact Hs]].
      * intros [Hp|(k' & [Heq|Hin] & Hs)]; [now left | | right; now exists k'].
        injection Heq as <- _. congruence.
Qed.

Lemma existsb_same {A} (f g : A -> bool) (l : list A) :
  (forall x, f x = g x) -> existsb f l = existsb g l.
Proof. intros H. induction l as [|x l IH]; simpl; [reflexivity | now rewrite H, IH]. Qed.

(** X12.  The browser loop.  It ends with an exception exactly when a
    search of one of its keys fails otherwise than by the time-out of line
    237.  When it runs to its end the table has the same ids in the same
    order; a key whose search gave a result has set album and URI of every
    row with the two names of the key, whether or not the row lacked them,
    and all other rows are as they were; and the report of line 326 lists
    the ids stored under the keys that the operator turned down, but not
    those of the keys whose search timed out. *)
Theorem skipped_lists_the_rejected_searches (env : Env) (m : list endsong_row)
    (work : list (key * Z)) :
  (forall e, manual_entry m work = Raise e <->
             e = WebDriverError /\ exists kv, In kv work /\ search (fst kv) = Crashed)
  /\ (forall m2 sk, manual_entry m work = Ok (m2, sk) ->
        map e_id m2 = map e_id m
        /\ (forall k r, nth_error m k = Some r ->
              nth_error m2 k
              = Some (if existsb (fun kv => has_names (fst kv) r) work then
                        match search (names_of r) with
                        | Found album link =>
                            set_track_data (Some album) (Some (strip_link link)) r
                        | _ => r
                        end
                      else r))
        /\ (forall p, In p (map fst sk) <->
                      exists k, In (k, p) work /\ search k = NotFound)).
Proof.
  split.
  - intros e. split; [apply manual_entry_raises|].
    intros (-> & kv & Hin & Hc). unfold manual_entry.
    destruct (for_each manual_entry_row work (m, [])) as [[m2 sk]|e] eqn:E.
    + apply manual_entry_rows in E as [_ Hno]. now contradiction (Hno kv Hin).
    + apply manual_entry_raises in E as [-> _]. reflexivity.
  - intros m2 sk H. unfold manual_entry in H.
    pose proof (manual_entry_skipped work m [] m2 sk H) as Hsk.
    apply manual_entry_rows in H as [-> _].
    split.
    { rewrite map_map. apply map_ext. intros r. unfold found_row. apply e_id_put. }
    split.
    { intros k r Hk. rewrite nth_error_map, Hk. cbn [option_map]. f_equal.
      unfold found_row, found_td, in_work.
      rewrite (existsb_same _ (fun kv => has_names (fst kv) r) work)
        by (intros kv; symmetry; apply has_names_has_key).
      destruct (existsb (fun kv => has_names (fst kv) r) work); [|apply put_track_pair].
      destruct (search (names_of r)); try apply put_track_pair. reflexivity. }
    intros p. rewrite (Hsk p). split; [intros [[]|H]; exact H | intros H; now right].
Qed.

Lemma skipped_lists_the_rejected_searches_witness :
  exists m2 sk,
    @manual_entry Sample.env [broken "2022-01-01T10:15:32Z" 180000 0 10]
      [((Some "X", Some "Y"), 10%Z)] = Ok (m2, sk)
    /\ In 10%Z (map fst sk).
Proof.
  destruct (@manual_entry Sample.env [broken "2022-01-01T10:15:32Z" 180000 0 10]
              [((Some "X", Some "Y"), 10%Z)]) as [[m2 sk]|] eqn:E;
    [|vm_compute in E; discriminate].
  exists m2, sk. split; [reflexivity|].
  destruct (skipped_lists_the_rejected_searches Sample.env
              [broken "2022-01-01T10:15:32Z" 180000 0 10] [((Some "X", Some "Y"), 10%Z)])
    as (_ & H).
  destruct (H m2 sk E) as (_ & _ & Hsk). apply Hsk.
  exists (Some "X", Some "Y"). split; [now left | reflexivity].
Defined.

(** * The keys of [no_extra] *)

Lemma dict_set_NoDup {V} (k : key) (v : V) (d : list (key * V)) :
  NoDup (map fst d) -> NoDup (map fst (dict_set key_eqb k v d)).
Proof.
  induction d as [|[k0 v0] d IH]; simpl; intros Hnd.
  - constructor; [intros [] | constructor].
  - inversion Hnd as [|? ? Hn Hnd']. subst.
    destruct (key_eqb k0 k) eqn:E; simpl; [now constructor|].
    constructor; [|now apply IH].
    rewrite dict_set_keys. intros [->|H]; [|contradiction].
    apply key_eqb_neq in E. congruence.
Qed.

Lemma dict_set_In {V} (k k0 : key) (v v0 : V) (d : list (key * V)) :
  NoDup (map fst d) ->
  In (k, v) (dict_set key_eqb k0 v0 d) ->
  (k = k0 /\ v = v0) \/ (In (k, v) d /\ k <> k0).
Proof.
  induction d as [|[k1 v1] d IH]; simpl; intros Hnd H.
  - destruct H as [H|[]]. injection H as <- <-. now left.
  - inversion Hnd as [|? ? Hn Hnd']. subst.
    destruct (key_eqb k1 k0) eqn:E.
    + apply key_eqb_eq in E. subst k1. destruct H as [H|H].
      * injection H as <- <-. now left.
      * right. split; [now right|]. intros ->. apply Hn.
        change k0 with (fst (k0, v)). now apply in_map.
    + apply key_eqb_neq in E. destruct H as [H|H].
      * injection H as <- <-. right. split; [now left | exact E].
      * destruct (IH Hnd' H) as [Hl|[Hin Hne]]; [now left|].
        right. split; [now right | exact Hne].
Qed.

Section LastId.

Variable endsong : list endsong_row.

Lemma queue_rows_NoDup rows (d : list (key * Z)) :
  NoDup (map fst d) -> NoDup (map fst (fold_left (queue_row endsong) rows d)).
Proof.
  revert d. induction rows as [|r rows IH]; intros d Hnd; [exact Hnd|].
  cbn [fold_left]. apply IH. unfold queue_row.
  destruct (queued endsong r); [now apply dict_set_NoDup | exact Hnd].
Qed.

Lemma queue_rows_last rows (d : list (key * Z)) k v :
  NoDup (map fst d) ->
  In (k, v) (fold_left (queue_row endsong) rows d) ->
  (In (k, v) d /\ forall r, In r rows -> queued endsong r = true -> names_of r <> k)
  \/ exists pre r post,
       rows = pre ++ r :: post /\ queued endsong r = true
       /\ names_of r = k /\ e_id r = v
       /\ forall r', In r' post -> queued endsong r' = true -> names_of r' <> k.
Proof.
  revert d. induction rows as [|r rows IH]; intros d Hnd H.
  - left. split; [exact H | contradiction].
  - cbn [fold_left] in H.
    assert (Hnd' : NoDup (map fst (queue_row endsong d r))).
    { unfold queue_row. destruct (queued endsong r); [now apply dict_set_NoDup | exact Hnd]. }
    destruct (IH _ Hnd' H) as [[Hin Hlater]|(pre & r0 & post & -> & Hq & Hk & Hv & Hlater)].
    + unfold queue_row in Hin. destruct (queued endsong r) eqn:Q.
      * apply (dict_set_In _ _ _ _ _ Hnd) in Hin as [[-> ->]|[Hin Hne]].
        -- right. exists [], r, rows. repeat split; try assumption; reflexivity.
        -- left. split; [exact Hin|]. intros r' [<-|Hr'] Hq'; [congruence | now apply Hlater].
      * left. split; [exact Hin|]. intros r' [<-|Hr'] Hq'; [congruence | now apply Hlater].
    + right. exists (r :: pre), r0, post. repeat split; try assumption.
Qed.

End LastId.

(** X13.  [no_extra] is a dict whose key is the pair of names, and line 221
    overwrites.  On a table with unique ids every pair of names is a key
    at most once, and the id stored under it is that of the last row of the
    table that has the two names, lacks album or URI and found no data in
    [endsong]: the ids of the earlier such rows are gone, and only the
    stored one can reach the report of line 326. *)
Theorem no_extra_keeps_the_last_id (endsong m m1 : list endsong_row)
    (no_extra : list (key * Z)) (k : key) (v : Z) :
  NoDup (map e_id m) ->
  add_track_data endsong m = (m1, no_extra) ->
  In (k, v) no_extra ->
  NoDup (map fst no_extra)
  /\ exists pre r post,
       m = pre ++ r :: post
       /\ names_of r = k /\ e_id r = v
       /\ needs_track_data r = true /\ track_data endsong k = []
       /\ forall r', In r' post -> names_of r' = k -> needs_track_data r' = false.
Proof.
  intros Hnd Ha Hin. rewrite (add_track_data_map endsong m Hnd) in Ha.
  injection Ha as _ <-.
  split; [apply queue_rows_NoDup; constructor|].
  destruct (queue_rows_last endsong m [] k v (NoDup_nil _) Hin)
    as [[[] _]|(pre & r & post & -> & Hq & Hk & Hv & Hlater)].
  exists pre, r, post. split; [reflexivity|]. split; [exact Hk|]. split; [exact Hv|].
  assert (Hq' := Hq). unfold queued in Hq'. apply andb_true_iff in Hq' as [Hneeds Htd].
  rewrite Hk in Htd.
  destruct (track_data endsong k) as [|x l] eqn:T; [|discriminate].
  split; [exact Hneeds|]. split; [reflexivity|].
  intros r' Hr' Hk'. destruct (needs_track_data r') eqn:N; [|reflexivity].
  exfalso. apply (Hlater r' Hr'); [|exact Hk'].
  unfold queued. now rewrite N, Hk', T.
Qed.

Lemma no_extra_keeps_the_last_id_witness :
  let m := [set_names "X" "Y" (broken "2022-01-01T10:15:32Z" 180000 0 10);
            set_names "X" "Y" (broken "2022-01-01T11:15:32Z" 180000 0 11)] in
  add_track_data [] m = (m, [((Some "X", Some "Y"), 11%Z)])
  /\ exists pre r post, m = pre ++ r :: post /\ e_id r = 11%Z.
Proof.
  intros m. split; [reflexivity|].
  assert (Hnd : NoDup (map e_id m))
    by (simpl; repeat constructor; simpl; intuition discriminate).
  destruct (no_extra_keeps_the_last_id [] m m [((Some "X", Some "Y"), 11%Z)]
              (Some "X", Some "Y") 11%Z Hnd eq_refl (or_introl eq_refl))
    as (_ & pre & r & post & Hm & _ & Hv & _).
  now exists pre, r, post.
Defined.

(** * Empty tables *)

Section EmptyHistory.

Context {env : Env}.
Variable endsong : list endsong_row.

Lemma set_order_nil A (dec : forall x y : A, {x = y} + {x <> y}) : set_order A dec [] = [].
Proof.
  destruct (set_order A dec []) as [|x l] eqn:E; [reflexivity|].
  assert (H : In x (set_order A dec [])) by (rewrite E; now left).
  apply set_order_In in H. contradiction.
Qed.

Lemma plan_empty_history : plan [] endsong = [].
Proof.
  unfold plan, all_multiple.
  assert (H1 : forall rows, single_attempts [] rows = []).
  { induction rows as [|r rows IH]; [reflexivity | exact IH]. }
  assert (H2 : forall rows, filter (many_matches []) rows = []).
  { induction rows as [|r rows IH]; [reflexivity | exact IH]. }
  now rewrite H1, H2, set_order_nil.
Qed.

Lemma fix_none_empty_history entries st :
  (forall p, In p entries -> exists row, In row endsong /\ e_id row = p) ->
  exists st',
    for_each (fix_none_entry [] endsong) entries st = Ok st'
    /\ endsong_modified st' = endsong_modified st
    /\ updated st' = updated st /\ unsure st' = unsure st
    /\ forall p, In p (missing st') <->
                 In p (missing st)
                 \/ (In p entries /\ count_id p (endsong_modified st) = 0).
Proof.
  revert st. induction entries as [|e entries IH]; intros st Hrows.
  - exists st. split; [reflexivity|]. split; [reflexivity|]. split; [reflexivity|].
    split; [reflexivity|]. intros p. split; [now left | intros [H|[[] _]]; exact H].
  - cbn [for_each].
    assert (Hstep : exists st1,
               fix_none_entry [] endsong st e = Ok st1
               /\ endsong_modified st1 = endsong_modified st
               /\ updated st1 = updated st /\ unsure st1 = unsure st
               /\ forall p, In p (missing st1) <->
                            In p (missing st)
                            \/ (p = e /\ count_id p (endsong_modified st) = 0)).
    { unfold fix_none_entry.
      destruct (Nat.eqb (count_id e (endsong_modified st)) 0) eqn:E.
      - apply Nat.eqb_eq in E.
        destruct (Hrows e (or_introl eq_refl)) as (row & Hin & Hid).
        destruct (filter (has_id e) endsong) as [|row' l] eqn:F.
        + exfalso. assert (H : In row (filter (has_id e) endsong))
            by (apply filter_In; split; [exact Hin | now apply has_id_true]).
          rewrite F in H. contradiction.
        + cbn [duration_matches filter map]. eexists. split; [reflexivity|].
          cbn [add_missing endsong_modified updated unsure missing].
          repeat split; try reflexivity.
          * intros H. apply in_app_or in H as [H|[<-|[]]]; [now left | right; now split].
          * intros [H|[-> _]]; apply in_or_app; [now left | right; now left].
      - apply Nat.eqb_neq in E. exists st. split; [reflexivity|].
        repeat split; try reflexivity; [now left|].
        intros [H|[-> H]]; [exact H | contradiction]. }
    destruct Hstep as (st1 & -> & Hm1 & Hu1 & Hs1 & Hmis1). cbn [bind].
    destruct (IH st1 (fun p Hp => Hrows p (or_intror Hp)))
      as (st' & Hfor & Hm & Hu & Hs & Hmis).
    exists st'. split; [exact Hfor|].
    split; [congruence|]. split; [congruence|]. split; [congruence|].
    intros p. rewrite Hmis, Hmis1, Hm1. cbn [In]. intuition congruence.
Qed.

End EmptyHistory.

(** X14.  Without any StreamingHistory entry the three loops copy nothing:
    they leave the table as it was and the counter at 0, ask the operator
    nothing, and report as missing exactly the ids of the rows on platform
    ios that have no row in the table.  Started on an empty table, such a
    run then ends at line 225 with KeyError. *)
Theorem empty_history_reports_every_ios_row_missing (env : Env)
    (endsong m : list endsong_row) :
  (exists st,
      resolve [] endsong m = Ok st
      /\ endsong_modified st = m /\ updated st = 0 /\ unsure st = []
      /\ forall p, In p (missing st) <->
                   (exists row, In row endsong /\ is_ios row = true /\ e_id row = p)
                   /\ count_id p m = 0)
  /\ run [] endsong [] = Raise KeyError.
Proof.
  assert (Hres : exists st,
             resolve [] endsong m = Ok st
             /\ endsong_modified st = m /\ updated st = 0 /\ unsure st = []
             /\ forall p, In p (missing st) <->
                          (exists row, In row endsong /\ is_ios row = true /\ e_id row = p)
                          /\ count_id p m = 0).
  { rewrite resolve_plan by (intros h []). unfold after_copies. rewrite plan_empty_history.
    cbn [fold_left].
    destruct (fix_none_empty_history endsong
                (set_order Z Z.eq_dec (all_none [] endsong))
                (with_sets (all_multiple [] endsong) (all_none [] endsong)
                   (mkState m [] [] [] [] 0)))
      as (st & Hfor & Hm & Hu & Hs & Hmis).
    { intros p Hp. apply set_order_In, all_none_spec in Hp as (row & Hin & _ & Hid & _).
      now exists row. }
    exists st. split; [exact Hfor|]. split; [exact Hm|]. split; [exact Hu|].
    split; [exact Hs|].
    intros p. rewrite Hmis. cbn [with_sets missing endsong_modified]. split.
    - intros [[]|[Hp Hc]]. split; [|exact Hc].
      apply set_order_In, all_none_spec in Hp as (row & Hin & Hios & Hid & _).
      now exists row.
    - intros [(row & Hin & Hios & Hid) Hc]. right. split; [|exact Hc].
      apply set_order_In, all_none_spec. exists row. repeat split; assumption. }
  split; [exact Hres|].
  clear Hres.
  assert (Hres : exists st, resolve [] endsong [] = Ok st /\ endsong_modified st = []).
  { rewrite resolve_plan by (intros h []). unfold after_copies. rewrite plan_empty_history.
    cbn [fold_left].
    destruct (fix_none_empty_history endsong
                (set_order Z Z.eq_dec (all_none [] endsong))
                (with_sets (all_multiple [] endsong) (all_none [] endsong)
                   (mkState [] [] [] [] [] 0)))
      as (st & Hfor & Hm & _).
    { intros p Hp. apply set_order_In, all_none_spec in Hp as (row & Hin & _ & Hid & _).
      now exists row. }
    exists st. split; [exact Hfor | exact Hm]. }
  destruct Hres as (st & Hres & Hm).
  unfold run. rewrite Hres. cbn [bind]. unfold finish. rewrite Hm. reflexivity.
Qed.
